(** * Offline-first task manager: the sync service and the task service

    A shallow embedding of [services/syncService.ts] ([SyncService]) and
    [services/taskService.ts] ([TaskService]) and the properties of the
    sync reconciliation engine proved about it.

    Conventions of the embedding.
    - The two SQLite tables are lists of rows in insertion (rowid) order;
      [UPDATE ... WHERE] is a [map], [DELETE ... WHERE] a [filter],
      [INSERT] appends a row.
    - A [Date] is its epoch time in milliseconds ([getTime()]), a [Z],
      within the range of a [Date] (8.64e15 ms either side of the epoch).
      The tables store dates as [toISOString()] text, and [ORDER BY
      created_at] compares that text ([iso_leb]): its order is the order
      of the epoch times for the years 0000 to 9999 only.
    - The body of a response is parsed JSON: a date in it is text, not a
      [Date] ([ResolvedData]).
    - The [data] column holds [JSON.stringify] of a task object and
      [processBatch] parses it back; the embedding keeps the object.
    - Everything the services take from outside is an oracle of the
      environment [Env]: the health probe, the answer to each batch POST,
      the clock behind [new Date()], [uuidv4()] and [Math.random()].
    - [async] functions are awaited at once by their only caller, so they
      are state transformers on [World]; storage errors are not modelled. *)

From Stdlib Require Import ZArith List String Bool Lia Permutation Sorted.
Import ListNotations.

Local Open Scope string_scope.
Local Open Scope list_scope.
Local Open Scope Z_scope.

(** ** Data model (the interfaces of [types], as the services use them) *)

Inductive SyncStatus : Type := Pending | Synced | Error.

Inductive Operation : Type := Create | Update | Delete.

(** The [status] of a processed item: ['success' | 'conflict' | 'error']. *)
Inductive ItemStatus : Type := ItemSuccess | ItemConflict | ItemError.

(** The text of an operation, as [errors.push] stores it. *)
Definition operation_text (o : Operation) : string :=
  match o with
  | Create => "create"
  | Update => "update"
  | Delete => "delete"
  end.

(** [interface Task]: the object [getTask] builds from a row. *)
Record Task : Type := mkTask {
  t_id : string;
  t_title : string;
  t_description : option string;
  t_completed : bool;
  t_created_at : Z;
  t_updated_at : Z;
  t_is_deleted : bool;
  t_sync_status : SyncStatus;
  t_server_id : option string;
  t_last_synced_at : option Z
}.

(** [Partial<Task>]: every field may be absent. *)
Record PartialTask : Type := mkPartial {
  p_id : option string;
  p_title : option string;
  p_description : option string;
  p_completed : option bool;
  p_created_at : option Z;
  p_updated_at : option Z;
  p_is_deleted : option bool;
  p_sync_status : option SyncStatus;
  p_server_id : option string;
  p_last_synced_at : option Z
}.

(** A task object seen as a [Partial<Task>] (what [JSON.stringify] keeps:
    an [undefined] field is left out). *)
Definition partial_of_task (t : Task) : PartialTask :=
  {| p_id := Some (t_id t);
     p_title := Some (t_title t);
     p_description := t_description t;
     p_completed := Some (t_completed t);
     p_created_at := Some (t_created_at t);
     p_updated_at := Some (t_updated_at t);
     p_is_deleted := Some (t_is_deleted t);
     p_sync_status := Some (t_sync_status t);
     p_server_id := t_server_id t;
     p_last_synced_at := t_last_synced_at t |}.

(** A row of table [tasks]: the columns [getTask] reads, and the
    [error_message] column that [handleSyncError] writes. *)
Record TaskRow : Type := mkTaskRow {
  r_task : Task;
  r_error_message : option string
}.

(** [interface SyncQueueItem], also a row of table [sync_queue]. *)
Record SyncQueueItem : Type := mkItem {
  q_id : string;
  q_task_id : string;
  q_operation : Operation;
  q_data : PartialTask;
  q_created_at : Z;
  q_retry_count : Z;
  q_error_message : option string
}.

(** An entry of [SyncResult.errors]. *)
Record SyncError : Type := mkSyncError {
  e_task_id : string;
  e_operation : string;
  e_error : string;
  e_timestamp : Z
}.

Record SyncResult : Type := mkSyncResult {
  success : bool;
  synced_items : Z;
  failed_items : Z;
  errors : list SyncError
}.

Record BatchSyncRequest : Type := mkRequest {
  items : list SyncQueueItem;
  client_timestamp : Z
}.

(** What [resolved_data] holds at run time.  [axios] parses the body of a
    response as JSON, in which a date is its ISO text ([p_updated_at] is
    then the time that text denotes) and any field may be missing; the
    declared type [Task], with [Date] objects, is what a transport stubbed
    in a test can hand over, and what [resolveConflict] returns. *)
Inductive ResolvedData : Type :=
  | Typed (task : Task)
  | Json (fields : PartialTask).

(** An element of [BatchSyncResponse.processed_items]. *)
Record ProcessedItem : Type := mkProcessed {
  client_id : string;
  server_id : string;
  status : ItemStatus;
  resolved_data : option ResolvedData;
  error : option string
}.

(** What [axios.post] does: it throws an [Error] with a message (network
    error, timeout after 30000 ms, HTTP error status) or resolves with the
    response body. *)
Inductive PostResult : Type :=
  | PostThrows (message : string)
  | PostOk (processed_items : list ProcessedItem).

(** A JavaScript number as [parseInt] returns it. *)
Inductive number : Type := NaN | Num (z : Z).

(** ** The world *)

Record Database : Type := mkDb {
  tasks : list TaskRow;
  sync_queue : list SyncQueueItem
}.

(** The database, how many times the clock and the identifier generators
    were read, the batch requests sent so far, and the console. *)
Record World : Type := mkWorld {
  db : Database;
  ticks : nat;
  draws : nat;
  requests : list BatchSyncRequest;
  console : list string
}.

Record Env : Type := mkEnv {
  (** [GET /health] is answered within 5000 ms *)
  health : bool;
  (** the outcome of the n-th [POST /sync/batch] *)
  post : nat -> BatchSyncRequest -> PostResult;
  (** the n-th reading of the clock *)
  clock : nat -> Z;
  (** the n-th identifier drawn by [uuidv4()] or [Math.random()] *)
  fresh_id : nat -> string;
  (** [parseInt] of [process.env.SYNC_BATCH_SIZE], when that is set and
      not empty *)
  SYNC_BATCH_SIZE : option number
}.

Definition set_db (d : Database) (w : World) : World :=
  {| db := d; ticks := ticks w; draws := draws w;
     requests := requests w; console := console w |}.

Definition set_tasks (ts : list TaskRow) (w : World) : World :=
  set_db {| tasks := ts; sync_queue := sync_queue (db w) |} w.

Definition set_sync_queue (q : list SyncQueueItem) (w : World) : World :=
  set_db {| tasks := tasks (db w); sync_queue := q |} w.

(** ** A state monad over the world *)

Definition M (A : Type) : Type := World -> A * World.

Definition ret {A : Type} (a : A) : M A := fun w => (a, w).

Definition bind {A B : Type} (m : M A) (k : A -> M B) : M B :=
  fun w => let (a, w') := m w in k a w'.

Declare Scope sync_scope.
Delimit Scope sync_scope with sync.
Notation "x <- m ;; k" := (bind m (fun x => k))
  (at level 61, m at next level, right associativity) : sync_scope.
Notation "m ;; k" := (bind m (fun _ => k))
  (at level 61, right associativity) : sync_scope.
Local Open Scope sync_scope.

(** ** JavaScript helpers *)

(** [s || d] on strings: the empty string is falsy. *)
Definition or_default (s : string) (d : string) : string :=
  if String.eqb s "" then d else s.

(** [s || d] when [s] may be [undefined]. *)
Definition opt_or_default (s : option string) (d : string) : string :=
  match s with
  | Some x => or_default x d
  | None => d
  end.

Definition num_add (a b : number) : number :=
  match a, b with
  | Num x, Num y => Num (x + y)
  | _, _ => NaN
  end.

(** [a < n]: false when [a] is [NaN]. *)
Definition num_lt (a : number) (n : Z) : bool :=
  match a with
  | Num x => x <? n
  | NaN => false
  end.

(** The index arithmetic of [Array.prototype.slice]: [NaN] counts as 0, a
    negative index counts from the end, and the result is clamped. *)
Definition relative_index (len : Z) (k : number) : Z :=
  match k with
  | NaN => 0
  | Num z => if z <? 0 then Z.max (len + z) 0 else Z.min z len
  end.

Definition slice {A : Type} (l : list A) (start final : number) : list A :=
  let len := Z.of_nat (List.length l) in
  let k := relative_index len start in
  let e := relative_index len final in
  firstn (Z.to_nat (e - k)) (skipn (Z.to_nat k) l).

(** [SQL UPDATE t SET ... WHERE p] and [DELETE FROM t WHERE p]. *)
Definition update_where {A : Type} (p : A -> bool) (f : A -> A)
    (l : list A) : list A :=
  map (fun r => if p r then f r else r) l.

Definition delete_where {A : Type} (p : A -> bool) (l : list A) : list A :=
  filter (fun r => negb (p r)) l.

(** Field updates of the records. *)
Definition with_sync_state (st : SyncStatus) (synced_at : option Z)
    (sid : option string) (t : Task) : Task :=
  {| t_id := t_id t; t_title := t_title t;
     t_description := t_description t; t_completed := t_completed t;
     t_created_at := t_created_at t; t_updated_at := t_updated_at t;
     t_is_deleted := t_is_deleted t; t_sync_status := st;
     t_server_id := sid; t_last_synced_at := synced_at |}.

Definition with_content (title : string) (description : option string)
    (completed : bool) (updated : Z) (t : Task) : Task :=
  {| t_id := t_id t; t_title := title;
     t_description := description; t_completed := completed;
     t_created_at := t_created_at t; t_updated_at := updated;
     t_is_deleted := t_is_deleted t; t_sync_status := t_sync_status t;
     t_server_id := t_server_id t; t_last_synced_at := t_last_synced_at t |}.

Definition with_is_deleted (d : bool) (t : Task) : Task :=
  {| t_id := t_id t; t_title := t_title t;
     t_description := t_description t; t_completed := t_completed t;
     t_created_at := t_created_at t; t_updated_at := t_updated_at t;
     t_is_deleted := d; t_sync_status := t_sync_status t;
     t_server_id := t_server_id t; t_last_synced_at := t_last_synced_at t |}.

Definition with_retry (n : Z) (msg : option string)
    (i : SyncQueueItem) : SyncQueueItem :=
  {| q_id := q_id i; q_task_id := q_task_id i;
     q_operation := q_operation i; q_data := q_data i;
     q_created_at := q_created_at i; q_retry_count := n;
     q_error_message := msg |}.

Definition with_resolution (st : ItemStatus) (data : option ResolvedData)
    (i : ProcessedItem) : ProcessedItem :=
  {| client_id := client_id i; server_id := server_id i;
     status := st; resolved_data := data; error := error i |}.

(** [{ ...existing, ...updates }]: a field of [updates] that is present
    overrides the field of [existing]. *)
Definition spread (existing : Task) (updates : PartialTask) : Task :=
  let pick {A : Type} (o : option A) (d : A) : A :=
    match o with Some v => v | None => d end in
  let pick_opt {A : Type} (o : option A) (d : option A) : option A :=
    match o with Some v => Some v | None => d end in
  {| t_id := pick (p_id updates) (t_id existing);
     t_title := pick (p_title updates) (t_title existing);
     t_description :=
       pick_opt (p_description updates) (t_description existing);
     t_completed := pick (p_completed updates) (t_completed existing);
     t_created_at := pick (p_created_at updates) (t_created_at existing);
     t_updated_at := pick (p_updated_at updates) (t_updated_at existing);
     t_is_deleted := pick (p_is_deleted updates) (t_is_deleted existing);
     t_sync_status :=
       pick (p_sync_status updates) (t_sync_status existing);
     t_server_id := pick_opt (p_server_id updates) (t_server_id existing);
     t_last_synced_at :=
       pick_opt (p_last_synced_at updates) (t_last_synced_at existing) |}.

(** The retry counter a row gets when the [INSERT] names no
    [retry_count].  The schema ([db/database]) is not among the sources;
    the integration test reads [retry_count] 0 right after [createTask]. *)
Definition retry_count_default : Z := 0.

(** The fields of its argument that [createTask] reads.  [taskData.title!]
    asserts that the title is there ([validateTaskCreate] rejects a request
    without one), so it is not optional here. *)
Record TaskData : Type := mkTaskData {
  td_title : string;
  td_description : option string;
  td_completed : option bool
}.

(** The message of the [TypeError] that reading [item.retry_count] of an
    [undefined] item throws. *)
Definition undefined_item_message : string :=
  "Cannot read properties of undefined (reading 'retry_count')".

(** The messages of the [TypeError] that [serverTask.updated_at.getTime()]
    throws when [updated_at] is text, and when it is missing. *)
Definition getTime_of_text_message : string :=
  "serverTask.updated_at.getTime is not a function".

Definition getTime_of_undefined_message : string :=
  "Cannot read properties of undefined (reading 'getTime')".

(** What [fields.updated_at.getTime()] throws on an object parsed from
    JSON ([null] reads like a missing field, but for the word in the
    message). *)
Definition getTime_message (fields : PartialTask) : string :=
  match p_updated_at fields with
  | Some _ => getTime_of_text_message
  | None => getTime_of_undefined_message
  end.

(** [data.server_id] *)
Definition data_server_id (data : ResolvedData) : option string :=
  match data with
  | Typed task => t_server_id task
  | Json fields => p_server_id fields
  end.

(** *** The text of a date

    [toISOString()] prints the years 0000 to 9999 with four digits, and
    any other year with a sign and six digits; SQLite compares the texts
    byte by byte, and ['+'] sorts before ['-'], which sorts before the
    digits. *)

(** The year (proleptic Gregorian calendar, UTC) in which the instant
    [ms] falls. *)
Definition year_of (ms : Z) : Z :=
  let z := ms / 86400000 + 719468 in
  let era := z / 146097 in
  let doe := z - era * 146097 in
  let yoe := (doe - doe / 1460 + doe / 36524 - doe / 146096) / 365 in
  let doy := doe - (365 * yoe + yoe / 4 - yoe / 100) in
  let mp := (5 * doy + 2) / 153 in
  yoe + era * 400 + (if mp <? 10 then 0 else 1).

(** Where the text of [ms] stands among all texts: first the years from
    10000 on, by time; then the years before 0000, the year nearest to
    0000 first and by time within a year; then the years 0000 to 9999,
    by time. *)
Definition iso_key (ms : Z) : Z * Z * Z :=
  let y := year_of ms in
  if 9999 <? y then (0, 0, ms)
  else if y <? 0 then (1, - y, ms)
  else (2, 0, ms).

(** [toISOString(a) <= toISOString(b)] as texts. *)
Definition iso_leb (a b : Z) : bool :=
  let '(c1, y1, m1) := iso_key a in
  let '(c2, y2, m2) := iso_key b in
  (c1 <? c2)
  || ((c1 =? c2) && ((y1 <? y2) || ((y1 =? y2) && (m1 <=? m2)))).

Section Services.

Variable env : Env.

(** *** Primitives *)

(** [new Date()] *)
Definition new_Date : M Z :=
  fun w => (clock env (ticks w),
            {| db := db w; ticks := S (ticks w); draws := draws w;
               requests := requests w; console := console w |}).

(** [uuidv4()], and [Math.random().toString(36).substring(2, 15)] *)
Definition uuidv4 : M string :=
  fun w => (fresh_id env (draws w),
            {| db := db w; ticks := ticks w; draws := S (draws w);
               requests := requests w; console := console w |}).

Definition console_log (line : string) : M unit :=
  fun w => (tt,
            {| db := db w; ticks := ticks w; draws := draws w;
               requests := requests w; console := console w ++ [line] |}).

(** [axios.post(`${apiUrl}/sync/batch`, request, { timeout: 30000 })] *)
Definition axios_post (request : BatchSyncRequest) : M PostResult :=
  fun w => (post env (List.length (requests w)) request,
            {| db := db w; ticks := ticks w; draws := draws w;
               requests := requests w ++ [request];
               console := console w |}).

Definition run_tasks (f : list TaskRow -> list TaskRow) : M unit :=
  fun w => (tt, set_tasks (f (tasks (db w))) w).

Definition run_sync_queue
    (f : list SyncQueueItem -> list SyncQueueItem) : M unit :=
  fun w => (tt, set_sync_queue (f (sync_queue (db w))) w).

(** *** TaskService *)

(** [SELECT * FROM tasks WHERE id = ? AND is_deleted = 0] *)
Definition getTask (id : string) : M (option Task) :=
  fun w =>
    (option_map r_task
       (find (fun r => String.eqb (t_id (r_task r)) id
                       && negb (t_is_deleted (r_task r)))
             (tasks (db w))), w).

Definition createTask (taskData : TaskData) : M Task :=
  id <- uuidv4 ;;
  created <- new_Date ;;
  updated <- new_Date ;;
  let task :=
    {| t_id := id;
       t_title := td_title taskData;
       t_description := td_description taskData;
       t_completed :=
         match td_completed taskData with Some b => b | None => false end;
       t_created_at := created;
       t_updated_at := updated;
       t_is_deleted := false;
       t_sync_status := Pending;
       t_server_id := None;
       t_last_synced_at := None |} in
  run_tasks (fun ts =>
    ts ++ [{| r_task := task; r_error_message := None |}]) ;;
  qid <- uuidv4 ;;
  enqueued <- new_Date ;;
  run_sync_queue (fun q =>
    q ++ [{| q_id := qid; q_task_id := t_id task; q_operation := Create;
             q_data := partial_of_task task; q_created_at := enqueued;
             q_retry_count := retry_count_default;
             q_error_message := None |}]) ;;
  ret task.

Definition updateTask (id : string) (updates : PartialTask)
    : M (option Task) :=
  existing <- getTask id ;;
  match existing with
  | None => ret None
  | Some existingTask =>
      now <- new_Date ;;
      let merged := spread existingTask updates in
      let updatedTask :=
        {| t_id := t_id merged; t_title := t_title merged;
           t_description := t_description merged;
           t_completed := t_completed merged;
           t_created_at := t_created_at merged;
           t_updated_at := now;
           t_is_deleted := t_is_deleted merged;
           t_sync_status := Pending;
           t_server_id := t_server_id merged;
           t_last_synced_at := t_last_synced_at merged |} in
      run_tasks (update_where
        (fun r => String.eqb (t_id (r_task r)) id)
        (fun r =>
           {| r_task :=
                with_sync_state (t_sync_status updatedTask)
                  (t_last_synced_at (r_task r)) (t_server_id (r_task r))
                  (with_content (t_title updatedTask)
                     (t_description updatedTask)
                     (t_completed updatedTask)
                     (t_updated_at updatedTask) (r_task r));
              r_error_message := r_error_message r |})) ;;
      qid <- uuidv4 ;;
      enqueued <- new_Date ;;
      run_sync_queue (fun q =>
        q ++ [{| q_id := qid; q_task_id := id; q_operation := Update;
                 q_data := partial_of_task updatedTask;
                 q_created_at := enqueued;
                 q_retry_count := retry_count_default;
                 q_error_message := None |}]) ;;
      ret (Some updatedTask)
  end.

Definition deleteTask (id : string) : M bool :=
  found <- getTask id ;;
  match found with
  | None => ret false
  | Some task =>
      now <- new_Date ;;
      run_tasks (update_where
        (fun r => String.eqb (t_id (r_task r)) id)
        (fun r =>
           {| r_task :=
                with_sync_state Pending
                  (t_last_synced_at (r_task r)) (t_server_id (r_task r))
                  (with_content (t_title (r_task r))
                     (t_description (r_task r)) (t_completed (r_task r))
                     now (with_is_deleted true (r_task r)));
              r_error_message := r_error_message r |})) ;;
      qid <- uuidv4 ;;
      enqueued <- new_Date ;;
      run_sync_queue (fun q =>
        q ++ [{| q_id := qid; q_task_id := id; q_operation := Delete;
                 q_data := partial_of_task (with_is_deleted true task);
                 q_created_at := enqueued;
                 q_retry_count := retry_count_default;
                 q_error_message := None |}]) ;;
      ret true
  end.

(** *** SyncService *)

(** [ORDER BY created_at ASC], on the stored text: rows with the same
    [created_at] stay in rowid order. *)
Fixpoint insert_by_created_at (x : SyncQueueItem)
    (l : list SyncQueueItem) : list SyncQueueItem :=
  match l with
  | [] => [x]
  | y :: l' =>
      if iso_leb (q_created_at x) (q_created_at y) then x :: l
      else y :: insert_by_created_at x l'
  end.

Definition order_by_created_at (l : list SyncQueueItem)
    : list SyncQueueItem :=
  fold_right insert_by_created_at [] l.

(** [SELECT * FROM sync_queue WHERE retry_count < 3
     ORDER BY created_at ASC] *)
Definition pendingItems (d : Database) : list SyncQueueItem :=
  order_by_created_at
    (filter (fun i => q_retry_count i <? 3) (sync_queue d)).

(** [parseInt(process.env.SYNC_BATCH_SIZE || '50')] *)
Definition BATCH_SIZE : number :=
  match SYNC_BATCH_SIZE env with
  | Some n => n
  | None => Num 50
  end.

(** [for (let i = 0; i < items.length; i += size)
       batches.push(items.slice(i, i + size))],
    started at [i].  The loop does not end when [size] is zero or
    negative; [None] is the loop still running when the fuel is spent. *)
Fixpoint make_batches {A : Type} (fuel : nat) (l : list A)
    (i size : number) : option (list (list A)) :=
  if num_lt i (Z.of_nat (List.length l)) then
    match fuel with
    | O => None
    | S fuel' =>
        option_map (cons (slice l i (num_add i size)))
          (make_batches fuel' l (num_add i size) size)
    end
  else Some [].

(** The local variables [syncedItems], [failedItems] and [errors] of
    [sync]. *)
Record Tally : Type := mkTally {
  syncedItems : Z;
  failedItems : Z;
  errors_so_far : list SyncError
}.

Definition count_synced (t : Tally) : Tally :=
  {| syncedItems := syncedItems t + 1; failedItems := failedItems t;
     errors_so_far := errors_so_far t |}.

(** [failedItems++; errors.push(e)] *)
Definition count_failed (e : SyncError) (t : Tally) : Tally :=
  {| syncedItems := syncedItems t; failedItems := failedItems t + 1;
     errors_so_far := errors_so_far t ++ [e] |}.

Definition checkConnectivity : M bool := ret (health env).

Definition resolveConflict (localTask serverTask : Task) : M Task :=
  let localTimestamp := t_updated_at localTask in
  let serverTimestamp := t_updated_at serverTask in
  let winningTask :=
    if localTimestamp >? serverTimestamp then localTask else serverTask in
  console_log ("Conflict resolved for task " ++ t_id localTask ++ ": "
               ++ (if localTimestamp >? serverTimestamp
                   then "local" else "server")
               ++ " version won") ;;
  ret winningTask.

(** [serverData?.server_id], when it is truthy. *)
Definition truthy_server_id (serverData : option ResolvedData)
    : option string :=
  match serverData with
  | Some data =>
      match data_server_id data with
      | Some s => if String.eqb s "" then None else Some s
      | None => None
      end
  | None => None
  end.

Definition updateSyncStatus (taskId : string) (st : SyncStatus)
    (serverData : option ResolvedData) : M unit :=
  now <- new_Date ;;
  run_tasks (update_where
    (fun r => String.eqb (t_id (r_task r)) taskId)
    (fun r =>
       {| r_task :=
            with_sync_state st (Some now)
              (match truthy_server_id serverData with
               | Some sid => Some sid
               | None => t_server_id (r_task r)
               end)
              (r_task r);
          r_error_message := r_error_message r |})) ;;
  match st with
  | Synced =>
      run_sync_queue
        (delete_where (fun i => String.eqb (q_task_id i) taskId))
  | _ => ret tt
  end.

(** [handleSyncError(item, error)], [message] being [error.message]. *)
Definition handleSyncError (item : SyncQueueItem) (message : string)
    : M unit :=
  let retryCount := q_retry_count item + 1 in
  let errorMessage := or_default message "Unknown error" in
  run_sync_queue (update_where
    (fun i => String.eqb (q_id i) (q_id item))
    (with_retry retryCount (Some errorMessage))) ;;
  if retryCount >=? 3 then
    run_tasks (update_where
      (fun r => String.eqb (t_id (r_task r)) (q_task_id item))
      (fun r =>
         {| r_task :=
              with_sync_state Error (t_last_synced_at (r_task r))
                (t_server_id (r_task r)) (r_task r);
            r_error_message :=
              Some ("Max retries exceeded: " ++ errorMessage)%string |})) ;;
    run_sync_queue
      (delete_where (fun i => String.eqb (q_id i) (q_id item)))
  else ret tt.

(** One turn of the loop of [processBatch] over the processed items: a
    conflict whose task is found locally and that carries the server's
    version goes to [resolveConflict(localTask, item.resolved_data as
    Task)] and becomes a success that carries the winner.  The cast
    checks nothing: on data whose [updated_at] is no [Date] the second
    line of [resolveConflict] throws, before anything is logged; [inl] is
    the message thrown. *)
Definition resolve_item (item : ProcessedItem) : M (string + ProcessedItem) :=
  match status item with
  | ItemConflict =>
      localTask <- getTask (client_id item) ;;
      match localTask, resolved_data item with
      | Some l, Some (Typed serverTask) =>
          winner <- resolveConflict l serverTask ;;
          ret (inr (with_resolution ItemSuccess (Some (Typed winner)) item))
      | Some _, Some (Json fields) => ret (inl (getTime_message fields))
      | _, _ => ret (inr item)
      end
  | _ => ret (inr item)
  end.

(** The loop: it ends at the first item on which [resolveConflict]
    throws. *)
Fixpoint resolve_conflicts (processed : list ProcessedItem)
    : M (string + list ProcessedItem) :=
  match processed with
  | [] => ret (inr [])
  | item :: rest =>
      r <- resolve_item item ;;
      match r with
      | inl message => ret (inl message)
      | inr item' =>
          rs <- resolve_conflicts rest ;;
          match rs with
          | inl message => ret (inl message)
          | inr rest' => ret (inr (item' :: rest'))
          end
      end
  end.

(** [processBatch(items)]: [inl message] when [axios.post] throws, or
    when resolving a conflict of the response throws. *)
Definition processBatch (batch : list SyncQueueItem)
    : M (string + list ProcessedItem) :=
  now <- new_Date ;;
  response <- axios_post {| items := batch; client_timestamp := now |} ;;
  match response with
  | PostThrows message => ret (inl message)
  | PostOk processed => resolve_conflicts processed
  end.

(** The [for] loop in the [try] block of [sync].  [batch.find(...)!] may be
    [undefined]; [handleSyncError] then throws before it writes anything,
    and the loop ends with [Some] of the message thrown. *)
Fixpoint apply_verdicts (batch : list SyncQueueItem)
    (processed : list ProcessedItem) (t : Tally)
    : M (Tally * option string) :=
  match processed with
  | [] => ret (t, None)
  | item :: rest =>
      match status item with
      | ItemSuccess =>
          updateSyncStatus (client_id item) Synced (resolved_data item) ;;
          apply_verdicts batch rest (count_synced t)
      | _ =>
          match find (fun b => String.eqb (q_task_id b) (client_id item))
                  batch with
          | None => ret (t, Some undefined_item_message)
          | Some b =>
              handleSyncError b (opt_or_default (error item) "Sync failed") ;;
              now <- new_Date ;;
              apply_verdicts batch rest
                (count_failed
                   {| e_task_id := client_id item;
                      e_operation := operation_text (q_operation b);
                      e_error := opt_or_default (error item) "Sync failed";
                      e_timestamp := now |} t)
          end
      end
  end.

(** The [for] loop in the [catch] block of [sync]. *)
Fixpoint fail_batch (batch : list SyncQueueItem) (message : string)
    (t : Tally) : M Tally :=
  match batch with
  | [] => ret t
  | item :: rest =>
      handleSyncError item message ;;
      now <- new_Date ;;
      fail_batch rest message
        (count_failed
           {| e_task_id := q_task_id item;
              e_operation := operation_text (q_operation item);
              e_error := message;
              e_timestamp := now |} t)
  end.

(** One turn of [for (const batch of batches) try { ... } catch { ... }]. *)
Definition sync_batch (batch : list SyncQueueItem) (t : Tally) : M Tally :=
  response <- processBatch batch ;;
  match response with
  | inl message => fail_batch batch message t
  | inr processed =>
      r <- apply_verdicts batch processed t ;;
      match r with
      | (t', None) => ret t'
      | (t', Some message) => fail_batch batch message t'
      end
  end.

Fixpoint sync_batches (batches : list (list SyncQueueItem)) (t : Tally)
    : M Tally :=
  match batches with
  | [] => ret t
  | batch :: rest =>
      t' <- sync_batch batch t ;;
      sync_batches rest t'
  end.

(** [sync()]: [None] when the loop that builds the batches does not end. *)
Definition sync (w : World) : option (SyncResult * World) :=
  let (isOnline, w1) := checkConnectivity w in
  if negb isOnline then
    let (now, w2) := new_Date w1 in
    Some ({| success := false; synced_items := 0; failed_items := 0;
             errors := [{| e_task_id := ""; e_operation := "sync";
                           e_error := "Server is not reachable";
                           e_timestamp := now |}] |}, w2)
  else
    let syncQueueItems := pendingItems (db w1) in
    if Z.of_nat (List.length syncQueueItems) =? 0 then
      Some ({| success := true; synced_items := 0; failed_items := 0;
               errors := [] |}, w1)
    else
      match make_batches (List.length syncQueueItems) syncQueueItems
              (Num 0) BATCH_SIZE with
      | None => None
      | Some batches =>
          let (t, w2) :=
            sync_batches batches
              {| syncedItems := 0; failedItems := 0;
                 errors_so_far := [] |} w1 in
          Some ({| success := failedItems t =? 0;
                   synced_items := syncedItems t;
                   failed_items := failedItems t;
                   errors := errors_so_far t |}, w2)
      end.

(** [addToSyncQueue(taskId, operation, data)] *)
Definition addToSyncQueue (taskId : string) (operation : Operation)
    (data : PartialTask) : M unit :=
  id <- uuidv4 ;;
  created <- new_Date ;;
  run_sync_queue (fun q =>
    q ++ [{| q_id := id; q_task_id := taskId; q_operation := operation;
             q_data := data; q_created_at := created;
             q_retry_count := 0; q_error_message := None |}]).

(** [getAllTasks()]: [SELECT * FROM tasks WHERE is_deleted = 0] *)
Definition getAllTasks : M (list Task) :=
  fun w =>
    (map r_task
       (filter (fun r => negb (t_is_deleted (r_task r))) (tasks (db w))),
     w).

(** [getTasksNeedingSync()]:
    [SELECT * FROM tasks WHERE sync_status IN ('pending', 'error')] *)
Definition getTasksNeedingSync : M (list Task) :=
  fun w =>
    (map r_task
       (filter (fun r =>
                  match t_sync_status (r_task r) with
                  | Pending | Error => true
                  | Synced => false
                  end)
          (tasks (db w))),
     w).

End Services.

(** * Vocabulary of the properties *)

(** What [sync] never writes: the identity and the content of a task. *)
Definition content (r : TaskRow)
    : string * string * option string * bool * Z * Z * bool :=
  (t_id (r_task r), t_title (r_task r), t_description (r_task r),
   t_completed (r_task r), t_created_at (r_task r),
   t_updated_at (r_task r), t_is_deleted (r_task r)).

(** No queue row has used up its retries. *)
Definition bounded (w : World) : Prop :=
  Forall (fun r => q_retry_count r < 3) (sync_queue (db w)).

(** [w'] has the tasks of [w] with identity and content untouched, no
    request sent since [w], and a bounded queue if [w] has one. *)
Definition preserves (w w' : World) : Prop :=
  map content (tasks (db w')) = map content (tasks (db w))
  /\ requests w' = requests w
  /\ (bounded w -> bounded w').

(** Oldest first. *)
Definition oldest_first (a b : SyncQueueItem) : Prop :=
  q_created_at a <= q_created_at b.

(** The order of the query: by the stored text of [created_at]. *)
Definition by_created_at_text (a b : SyncQueueItem) : Prop :=
  iso_leb (q_created_at a) (q_created_at b) = true.

(** The row was enqueued in a year that is printed with four digits. *)
Definition four_digit_year (i : SyncQueueItem) : Prop :=
  0 <= year_of (q_created_at i) <= 9999.

(** The batch size [size] is what the environment configures:
    [SYNC_BATCH_SIZE] parses to it, or is not set and [size] is 50. *)
Definition configured (env : Env) (size : Z) : Prop :=
  SYNC_BATCH_SIZE env = Some (Num size)
  \/ (SYNC_BATCH_SIZE env = None /\ size = 50).

(** The queue contract [recordFailure] in the words of the design, on one
    row: the row's counter goes up by one and the error text is stored;
    a row whose new counter reaches 3 is removed. *)
Definition recordFailure (errorMessage : string) (r : SyncQueueItem)
    : list SyncQueueItem :=
  if q_retry_count r + 1 >=? 3 then []
  else [with_retry (q_retry_count r + 1) (Some errorMessage) r].

(** A row that has the identifier of an item of the batch has its counter. *)
Definition snapshot_of (batch q : list SyncQueueItem) : Prop :=
  forall item r, In item batch -> In r q ->
    q_id r = q_id item -> q_retry_count r = q_retry_count item.

(** The worlds the two services can bring about, from an empty
    database. *)
Inductive reachable : World -> Prop :=
  | reach_empty (w : World) :
      tasks (db w) = [] -> sync_queue (db w) = [] -> reachable w
  | reach_createTask (env : Env) (taskData : TaskData) (w : World) :
      reachable w -> reachable (snd (createTask env taskData w))
  | reach_updateTask (env : Env) (id : string) (updates : PartialTask)
      (w : World) :
      reachable w -> reachable (snd (updateTask env id updates w))
  | reach_deleteTask (env : Env) (id : string) (w : World) :
      reachable w -> reachable (snd (deleteTask env id w))
  | reach_addToSyncQueue (env : Env) (taskId : string) (op : Operation)
      (data : PartialTask) (w : World) :
      reachable w -> reachable (snd (addToSyncQueue env taskId op data w))
  | reach_sync (env : Env) (w : World) (r : SyncResult) (w' : World) :
      reachable w -> sync env w = Some (r, w') -> reachable w'.

(** What a run may make of the queue it started from: row by row, in
    order, a row is kept, or kept with one more retry and some error text,
    or dropped. *)
Inductive evolves : list SyncQueueItem -> list SyncQueueItem -> Prop :=
  | evolves_nil : evolves [] []
  | evolves_keep (r : SyncQueueItem) (q q' : list SyncQueueItem) :
      evolves q q' -> evolves (r :: q) (r :: q')
  | evolves_bump (r : SyncQueueItem) (m : option string)
      (q q' : list SyncQueueItem) :
      evolves q q' ->
      evolves (r :: q) (with_retry (q_retry_count r + 1) m r :: q')
  | evolves_drop (r : SyncQueueItem) (q q' : list SyncQueueItem) :
      evolves q q' -> evolves (r :: q) q'.

(** The row [handleSyncError] writes into [tasks] when the retries are
    used up. *)
Definition exhausted (errorMessage : string) (r : TaskRow) : TaskRow :=
  {| r_task :=
       with_sync_state Error (t_last_synced_at (r_task r))
         (t_server_id (r_task r)) (r_task r);
     r_error_message :=
       Some ("Max retries exceeded: " ++ errorMessage)%string |}.

(** The task [r] owns an item of [l] that is at its last retry. *)
Definition owns_last_retry (l : list SyncQueueItem) (r : TaskRow) : bool :=
  existsb (fun i => (q_retry_count i + 1 >=? 3)
                    && String.eqb (t_id (r_task r)) (q_task_id i)) l.

(** The counts of a tally agree with its list of errors. *)
Definition tally_counts (t : Tally) : Prop :=
  failedItems t = Z.of_nat (List.length (errors_so_far t))
  /\ 0 <= syncedItems t.

(** A verdict on which [processBatch] throws in world [w]: a conflict on
    a task that [getTask] finds, with data parsed from JSON. *)
Definition resolver_throws (w : World) (p : ProcessedItem) : Prop :=
  status p = ItemConflict
  /\ fst (getTask (client_id p) w) <> None
  /\ exists fields, resolved_data p = Some (Json fields).

(** An error entry without its timestamp. *)
Definition entry_of (e : SyncError) : string * string * string :=
  (e_task_id e, e_operation e, e_error e).

(** The queue after one failure is recorded on every row whose
    identifier is in [ids]. *)
Definition record_failures (ids : list string) (errorMessage : string)
    (q : list SyncQueueItem) : list SyncQueueItem :=
  flat_map
    (fun r =>
       if existsb (String.eqb (q_id r)) ids
       then recordFailure errorMessage r
       else [r])
    q.

(** The server answers the health probe and every batch request throws
    [message]; the batch size is [size], at least 1. *)
Definition transport_down (env : Env) (message : string) (size : Z)
    : Prop :=
  health env = true
  /\ BATCH_SIZE env = Num size
  /\ 1 <= size
  /\ forall n request, post env n request = PostThrows message.

(** [t'] has the errors of [t] and maybe more, and no fewer failures. *)
Definition extends (t t' : Tally) : Prop :=
  (exists es, errors_so_far t' = errors_so_far t ++ es)
  /\ failedItems t <= failedItems t'.

(** Every row of a task named in [ids] has sync status synced. *)
Definition synced_on (ids : list string) (w : World) : Prop :=
  forall row, In row (tasks (db w)) ->
    In (t_id (r_task row)) ids -> t_sync_status (r_task row) = Synced.

(** The world right after the request for [batch] is posted from [w]. *)
Definition requested (env : Env) (batch : list SyncQueueItem) (w : World)
    : World :=
  {| db := db w; ticks := S (ticks w); draws := draws w;
     requests := requests w ++
       [{| items := batch; client_timestamp := clock env (ticks w) |}];
     console := console w |}.

(** A queue row whose counter and stored error agree: the counter is 0,
    1 or 2, and an error text is stored exactly when it is not 0. *)
Definition well_counted (i : SyncQueueItem) : Prop :=
  0 <= q_retry_count i < 3
  /\ (q_retry_count i = 0 -> q_error_message i = None)
  /\ (0 < q_retry_count i -> q_error_message i <> None).

(** A task row in error says why. *)
Definition error_explained (row : TaskRow) : Prop :=
  t_sync_status (r_task row) = Error -> r_error_message row <> None.

Definition consistent (w : World) : Prop :=
  Forall well_counted (sync_queue (db w))
  /\ Forall error_explained (tasks (db w)).

(** ** Sample data: one task edited locally, its queued update, and the
    version the server holds *)

Module Sample.

Definition local_task : Task :=
  {| t_id := "A"; t_title := "Local Update"; t_description := None;
     t_completed := false; t_created_at := 100; t_updated_at := 1000;
     t_is_deleted := false; t_sync_status := Pending;
     t_server_id := Some "srv_1"; t_last_synced_at := Some 500 |}.

Definition server_task : Task :=
  {| t_id := "A"; t_title := "Server Update"; t_description := None;
     t_completed := false; t_created_at := 100; t_updated_at := 2000;
     t_is_deleted := false; t_sync_status := Synced;
     t_server_id := Some "srv_1"; t_last_synced_at := Some 500 |}.

Definition queued_update : SyncQueueItem :=
  {| q_id := "sync_1"; q_task_id := "A"; q_operation := Update;
     q_data := partial_of_task local_task; q_created_at := 1500;
     q_retry_count := 0; q_error_message := None |}.

Definition world : World :=
  {| db := {| tasks := [{| r_task := local_task;
                           r_error_message := None |}];
              sync_queue := [queued_update] |};
     ticks := 0; draws := 0; requests := []; console := [] |}.

(** The same task with nothing queued. *)
Definition empty_world : World :=
  {| db := {| tasks := [{| r_task := local_task;
                           r_error_message := None |}];
              sync_queue := [] |};
     ticks := 0; draws := 0; requests := []; console := [] |}.

(** The server answers every batch with a conflict on task A; its
    version comes in the JSON body. *)
Definition conflict_verdict : ProcessedItem :=
  {| client_id := "A"; server_id := "srv_1"; status := ItemConflict;
     resolved_data := Some (Json (partial_of_task server_task));
     error := None |}.

Definition conflict_env : Env :=
  {| health := true;
     post := fun _ _ => PostOk [conflict_verdict];
     clock := fun n => 5000 + Z.of_nat n;
     fresh_id := fun n => String (Ascii.ascii_of_nat (97 + n)) "";
     SYNC_BATCH_SIZE := None |}.

(** The same answer from a transport stubbed to hand over the declared
    type, with [Date] objects. *)
Definition typed_conflict_env : Env :=
  {| health := true;
     post := fun _ _ =>
       PostOk [{| client_id := "A"; server_id := "srv_1";
                  status := ItemConflict;
                  resolved_data := Some (Typed server_task);
                  error := None |}];
     clock := fun n => 5000 + Z.of_nat n;
     fresh_id := fun n => String (Ascii.ascii_of_nat (97 + n)) "";
     SYNC_BATCH_SIZE := None |}.

(** The server cannot be reached at all. *)
Definition offline_env : Env :=
  {| health := false;
     post := fun _ _ => PostThrows "Network Error";
     clock := fun n => 5000 + Z.of_nat n;
     fresh_id := fun n => String (Ascii.ascii_of_nat (97 + n)) "";
     SYNC_BATCH_SIZE := None |}.

(** The health probe answers, every batch request times out. *)
Definition timeout_env : Env :=
  {| health := true;
     post := fun _ _ => PostThrows "timeout of 30000ms exceeded";
     clock := fun n => 5000 + Z.of_nat n;
     fresh_id := fun n => String (Ascii.ascii_of_nat (97 + n)) "";
     SYNC_BATCH_SIZE := Some (Num 1) |}.

(** An empty database. *)
Definition blank_world : World :=
  {| db := {| tasks := []; sync_queue := [] |};
     ticks := 0; draws := 0; requests := []; console := [] |}.

(** The server confirms every item it is sent. *)
Definition confirming_env : Env :=
  {| health := true;
     post := fun _ request =>
       PostOk (map (fun i =>
                      {| client_id := q_task_id i;
                         server_id := q_task_id i;
                         status := ItemSuccess;
                         resolved_data := None; error := None |})
                 (items request));
     clock := fun n => 5000 + Z.of_nat n;
     fresh_id := fun n => String (Ascii.ascii_of_nat (97 + n)) "";
     SYNC_BATCH_SIZE := None |}.

(** Task A with two queued items, its creation and an update. *)
Definition queued_create : SyncQueueItem :=
  {| q_id := "sync_0"; q_task_id := "A"; q_operation := Create;
     q_data := partial_of_task local_task; q_created_at := 1400;
     q_retry_count := 0; q_error_message := None |}.

Definition two_items_world : World :=
  {| db := {| tasks := [{| r_task := local_task;
                           r_error_message := None |}];
              sync_queue := [queued_create; queued_update] |};
     ticks := 0; draws := 0; requests := []; console := [] |}.

(** Batches of one item; the server confirms task A on the first request,
    every later request times out. *)
Definition flaky_env : Env :=
  {| health := true;
     post := fun n _ =>
       match n with
       | O => PostOk [{| client_id := "A"; server_id := "srv_1";
                         status := ItemSuccess; resolved_data := None;
                         error := None |}]
       | S _ => PostThrows "timeout of 30000ms exceeded"
       end;
     clock := fun n => 5000 + Z.of_nat n;
     fresh_id := fun n => String (Ascii.ascii_of_nat (97 + n)) "";
     SYNC_BATCH_SIZE := Some (Num 1) |}.

(** The server rejects both items of task A. *)
Definition rejecting_env : Env :=
  {| health := true;
     post := fun _ _ =>
       PostOk [{| client_id := "A"; server_id := ""; status := ItemError;
                  resolved_data := None; error := Some "rejected" |};
               {| client_id := "A"; server_id := ""; status := ItemError;
                  resolved_data := None; error := Some "rejected" |}];
     clock := fun n => 5000 + Z.of_nat n;
     fresh_id := fun n => String (Ascii.ascii_of_nat (97 + n)) "";
     SYNC_BATCH_SIZE := None |}.


(** The first instant of the year 10000, and an update enqueued then,
    after [queued_update]. *)
Definition year_10000 : Z := 253402300800000.

Definition late_update : SyncQueueItem :=
  {| q_id := "sync_2"; q_task_id := "A"; q_operation := Update;
     q_data := partial_of_task local_task; q_created_at := year_10000;
     q_retry_count := 0; q_error_message := None |}.

Definition late_world : World :=
  {| db := {| tasks := [{| r_task := local_task;
                           r_error_message := None |}];
              sync_queue := [queued_update; late_update] |};
     ticks := 0; draws := 0; requests := []; console := [] |}.

End Sample.

(** * Properties *)

(** ** The conflict resolver *)

(** C5: the resolver returns the local version when the local timestamp is
    strictly greater and the server version when the server timestamp is
    strictly greater; the winner depends on the two versions only, not on
    the world the resolver runs in, of which it changes nothing but the
    console. *)
Theorem resolveConflict_last_write_wins (l s : Task) (w : World) :
  (t_updated_at l > t_updated_at s -> fst (resolveConflict l s w) = l) /\
  (t_updated_at s > t_updated_at l -> fst (resolveConflict l s w) = s) /\
  (forall w' : World,
      fst (resolveConflict l s w') = fst (resolveConflict l s w)) /\
  db (snd (resolveConflict l s w)) = db w.
Proof.
  unfold resolveConflict, bind, console_log, ret; cbn.
  repeat split.
  - intros H. destruct (Z.gtb_spec (t_updated_at l) (t_updated_at s));
      [reflexivity | lia].
  - intros H. destruct (Z.gtb_spec (t_updated_at l) (t_updated_at s));
      [lia | reflexivity].
Qed.

Lemma resolveConflict_last_write_wins_witness :
  fst (resolveConflict Sample.local_task Sample.server_task Sample.world)
  = Sample.server_task.
Proof.
  apply (proj1 (proj2 (resolveConflict_last_write_wins
                         Sample.local_task Sample.server_task Sample.world))).
  reflexivity.
Defined.

(** C10: when the two timestamps are equal the resolver returns the server
    version. *)
Theorem resolveConflict_tie_server_wins (l s : Task) (w : World) :
  t_updated_at l = t_updated_at s -> fst (resolveConflict l s w) = s.
Proof.
  intros H. unfold resolveConflict, bind, console_log, ret; cbn.
  rewrite H.
  destruct (Z.gtb_spec (t_updated_at s) (t_updated_at s));
    [lia | reflexivity].
Qed.

Lemma resolveConflict_tie_server_wins_witness :
  fst (resolveConflict Sample.server_task
         (with_content "Other" None true 2000 Sample.server_task)
         Sample.world)
  = with_content "Other" None true 2000 Sample.server_task.
Proof.
  apply resolveConflict_tie_server_wins. reflexivity.
Defined.

(** ** The unreachable path *)

(** C2: when the health probe fails, [sync] returns success=false, no
    synced and no failed item and the one entry that says the server is
    not reachable, and the database (tasks and queue) is what it was. *)
Theorem sync_unreachable (env : Env) (w : World) :
  health env = false ->
  exists w' : World,
    sync env w =
      Some ({| success := false; synced_items := 0; failed_items := 0;
               errors := [{| e_task_id := ""; e_operation := "sync";
                             e_error := "Server is not reachable";
                             e_timestamp := clock env (ticks w) |}] |}, w')
    /\ db w' = db w
    /\ requests w' = requests w.
Proof.
  intros H. unfold sync, checkConnectivity, ret. rewrite H. cbn.
  eexists. split; [reflexivity | split; reflexivity].
Qed.

Lemma sync_unreachable_witness :
  exists w' : World,
    sync Sample.offline_env Sample.world =
      Some ({| success := false; synced_items := 0; failed_items := 0;
               errors := [{| e_task_id := ""; e_operation := "sync";
                             e_error := "Server is not reachable";
                             e_timestamp := 5000 |}] |}, w')
    /\ db w' = db Sample.world
    /\ requests w' = requests Sample.world.
Proof.
  apply (sync_unreachable Sample.offline_env Sample.world). reflexivity.
Defined.

(** ** The summary of a run *)

(** C7: on the reachable path the result's success flag is true exactly
    when its failed count is zero, and with nothing pending [sync] returns
    success=true, zero counts and no error, whatever the batch size. *)
Theorem sync_success_iff_no_failures (env : Env) (w : World) :
  health env = true ->
  (forall (r : SyncResult) (w' : World),
      sync env w = Some (r, w') ->
      (success r = true <-> failed_items r = 0)) /\
  (pendingItems (db w) = [] ->
   sync env w =
     Some ({| success := true; synced_items := 0; failed_items := 0;
              errors := [] |}, w)).
Proof.
  intros H. unfold sync, checkConnectivity, ret. rewrite H. cbn.
  split.
  - intros r w'.
    destruct (Z.of_nat (List.length (pendingItems (db w))) =? 0).
    + intros E. injection E as <- _. cbn. split; reflexivity.
    + destruct (make_batches _ _ _ _) as [batches|]; [|discriminate].
      destruct (sync_batches env batches _ w) as [t w2].
      intros E. injection E as <- _. cbn. apply Z.eqb_eq.
  - intros E. rewrite E. reflexivity.
Qed.

Lemma sync_success_iff_no_failures_witness :
  sync Sample.conflict_env Sample.empty_world =
    Some ({| success := true; synced_items := 0; failed_items := 0;
             errors := [] |}, Sample.empty_world).
Proof.
  apply (proj2 (sync_success_iff_no_failures
                  Sample.conflict_env Sample.empty_world eq_refl)).
  reflexivity.
Defined.

(** ** Rows and tables *)

Lemma Forall2_update_where {A : Type} (P : A -> A -> Prop)
    (p : A -> bool) (f : A -> A) (l : list A) :
  (forall r, In r l -> P r (if p r then f r else r)) ->
  Forall2 P l (update_where p f l).
Proof.
  induction l as [|a l IH]; intros H; cbn.
  - constructor.
  - constructor.
    + apply H. now left.
    + apply IH. intros r Hr. apply H. now right.
Qed.

Lemma in_delete_where {A : Type} (p : A -> bool) (l : list A) (x : A) :
  In x (delete_where p l) <-> In x l /\ p x = false.
Proof.
  unfold delete_where. rewrite filter_In, negb_true_iff. reflexivity.
Qed.

(** ** Applying a success verdict *)

(** C9: applying a success verdict rewrites, in the rows of the task named
    by the verdict, the sync status, the last-synced time and (when the
    verdict's data carries a non-empty one) the server identifier; title,
    description, completed flag, deletion flag, timestamps and stored
    error of every row stay, rows of other tasks are not touched, and
    every queue row of that task is deleted, whichever item the verdict
    answers. *)
Theorem success_verdict_frame (env : Env) (batch : list SyncQueueItem)
    (item : ProcessedItem) (rest : list ProcessedItem) (t : Tally)
    (w : World) :
  status item = ItemSuccess ->
  exists w' : World,
    apply_verdicts env batch (item :: rest) t w
      = apply_verdicts env batch rest (count_synced t) w'
    /\ Forall2
         (fun r r' =>
            content r' = content r
            /\ r_error_message r' = r_error_message r
            /\ (t_id (r_task r) <> client_id item -> r' = r)
            /\ (t_id (r_task r) = client_id item ->
                t_sync_status (r_task r') = Synced
                /\ t_last_synced_at (r_task r') = Some (clock env (ticks w))
                /\ t_server_id (r_task r') =
                     match truthy_server_id (resolved_data item) with
                     | Some sid => Some sid
                     | None => t_server_id (r_task r)
                     end))
         (tasks (db w)) (tasks (db w'))
    /\ sync_queue (db w') =
         filter (fun i => negb (String.eqb (q_task_id i) (client_id item)))
           (sync_queue (db w)).
Proof.
  intros Hs. eexists. split; [|split].
  - cbn [apply_verdicts]. rewrite Hs. unfold bind at 1.
    destruct (updateSyncStatus env (client_id item) Synced
                (resolved_data item) w) as [[] w'] eqn:E.
    replace w' with (snd (updateSyncStatus env (client_id item) Synced
                            (resolved_data item) w)) by now rewrite E.
    reflexivity.
  - cbn. apply Forall2_update_where. intros r _.
    destruct (String.eqb_spec (t_id (r_task r)) (client_id item)) as [e|n].
    + cbn. split; [reflexivity | split; [reflexivity | split]].
      * intros Hn. contradiction.
      * intros _. repeat split.
    + split; [reflexivity | split; [reflexivity | split]].
      * reflexivity.
      * intros He. contradiction.
  - reflexivity.
Qed.

Lemma success_verdict_frame_witness :
  exists w' : World,
    apply_verdicts Sample.conflict_env [Sample.queued_update]
      [{| client_id := "A"; server_id := "srv_1"; status := ItemSuccess;
          resolved_data := Some (Json (partial_of_task Sample.server_task));
          error := None |}]
      {| syncedItems := 0; failedItems := 0; errors_so_far := [] |}
      Sample.world
    = ({| syncedItems := 1; failedItems := 0; errors_so_far := [] |},
       None, w')
    /\ map content (tasks (db w')) = map content (tasks (db Sample.world))
    /\ sync_queue (db w') = [].
Proof.
  destruct (success_verdict_frame Sample.conflict_env [Sample.queued_update]
              {| client_id := "A"; server_id := "srv_1";
                 status := ItemSuccess;
                 resolved_data :=
                   Some (Json (partial_of_task Sample.server_task));
                 error := None |}
              [] {| syncedItems := 0; failedItems := 0;
                    errors_so_far := [] |}
              Sample.world eq_refl) as [w' [E [F Q]]].
  exists w'. split; [exact E | split].
  - inversion F as [|r r' l l' [C _] F' E1 E2]; subst.
    inversion F'; subst. cbn. now rewrite C.
  - rewrite Q. reflexivity.
Defined.

(** ** Task mutations *)




(** ** What a run preserves *)

Lemma bind_run {A B : Type} (m : M A) (k : A -> M B) (w : World) :
  bind m k w = k (fst (m w)) (snd (m w)).
Proof. unfold bind. destruct (m w). reflexivity. Qed.

Lemma preserves_refl (w : World) : preserves w w.
Proof. repeat split. auto. Qed.

Lemma preserves_trans (w1 w2 w3 : World) :
  preserves w1 w2 -> preserves w2 w3 -> preserves w1 w3.
Proof.
  intros [C1 [R1 B1]] [C2 [R2 B2]]. repeat split.
  - now rewrite C2.
  - now rewrite R2.
  - auto.
Qed.

Lemma map_content_update_where (p : TaskRow -> bool)
    (f : TaskRow -> TaskRow) (l : list TaskRow) :
  (forall r, content (f r) = content r) ->
  map content (update_where p f l) = map content l.
Proof.
  intros H. unfold update_where. rewrite map_map. apply map_ext.
  intros r. destruct (p r); [apply H | reflexivity].
Qed.

Lemma new_Date_preserves (env : Env) (w : World) :
  preserves w (snd (new_Date env w)).
Proof. repeat split. auto. Qed.

Lemma updateSyncStatus_preserves (env : Env) (taskId : string)
    (st : SyncStatus) (serverData : option ResolvedData) (w : World) :
  preserves w (snd (updateSyncStatus env taskId st serverData w)).
Proof.
  unfold preserves, bounded. destruct st; cbn; repeat split;
    try (apply map_content_update_where; reflexivity); auto.
  intros H. unfold delete_where. apply Forall_forall. intros r Hr.
  apply filter_In in Hr. rewrite Forall_forall in H. apply H, Hr.
Qed.

(** After a recorded failure the rows of the failed item are gone or
    carry a counter below 3, whatever the counter was. *)
Lemma handleSyncError_preserves (item : SyncQueueItem) (message : string)
    (w : World) :
  preserves w (snd (handleSyncError item message w)).
Proof.
  unfold preserves, bounded, handleSyncError. rewrite bind_run. cbn.
  destruct (Z.geb_spec (q_retry_count item + 1) 3) as [Hge|Hlt];
    cbn; repeat split;
    try (apply map_content_update_where; reflexivity).
  - intros H. apply Forall_forall. intros r Hr.
    apply in_delete_where in Hr. destruct Hr as [Hr Hid].
    unfold update_where in Hr. apply in_map_iff in Hr.
    destruct Hr as [r0 [E Hr0]]. rewrite Forall_forall in H.
    destruct (String.eqb (q_id r0) (q_id item)) eqn:E0.
    + subst r. cbn in Hid. congruence.
    + subst r. apply H, Hr0.
  - intros H. apply Forall_forall. intros r Hr.
    unfold update_where in Hr. apply in_map_iff in Hr.
    destruct Hr as [r0 [E Hr0]]. rewrite Forall_forall in H.
    destruct (String.eqb (q_id r0) (q_id item)).
    + subst r. cbn. lia.
    + subst r. apply H, Hr0.
Qed.

Lemma resolve_item_db (item : ProcessedItem) (w : World) :
  db (snd (resolve_item item w)) = db w
  /\ requests (snd (resolve_item item w)) = requests w
  /\ ticks (snd (resolve_item item w)) = ticks w.
Proof.
  unfold resolve_item. destruct (status item); try (repeat split; fail).
  rewrite bind_run. cbn [getTask fst snd].
  destruct (option_map _ _) as [l|]; [|repeat split].
  destruct (resolved_data item) as [[s|j]|]; repeat split.
Qed.

Lemma resolve_conflicts_db (processed : list ProcessedItem) (w : World) :
  db (snd (resolve_conflicts processed w)) = db w
  /\ requests (snd (resolve_conflicts processed w)) = requests w
  /\ ticks (snd (resolve_conflicts processed w)) = ticks w.
Proof.
  revert w. induction processed as [|item rest IH]; intros w.
  - repeat split.
  - cbn [resolve_conflicts]. rewrite bind_run.
    destruct (resolve_item_db item w) as [D1 [R1 T1]].
    destruct (fst (resolve_item item w)) as [m|item'].
    + cbn [ret snd]. repeat split; assumption.
    + rewrite bind_run.
      destruct (IH (snd (resolve_item item w))) as [D2 [R2 T2]].
      destruct (fst (resolve_conflicts rest _));
        cbn [ret snd]; repeat split; congruence.
Qed.

Lemma apply_verdicts_preserves (env : Env) (batch : list SyncQueueItem)
    (processed : list ProcessedItem) (t : Tally) (w : World) :
  preserves w (snd (apply_verdicts env batch processed t w)).
Proof.
  revert t w. induction processed as [|item rest IH]; intros t w.
  - apply preserves_refl.
  - cbn [apply_verdicts].
    assert (Hfail :
      preserves w
        (snd (match find (fun b => String.eqb (q_task_id b) (client_id item))
                      batch with
              | None => ret (t, Some undefined_item_message)
              | Some b =>
                  handleSyncError b
                    (opt_or_default (error item) "Sync failed") ;;
                  now <- new_Date env ;;
                  apply_verdicts env batch rest
                    (count_failed
                       {| e_task_id := client_id item;
                          e_operation := operation_text (q_operation b);
                          e_error :=
                            opt_or_default (error item) "Sync failed";
                          e_timestamp := now |} t)
              end w))).
    { destruct (find _ batch) as [b|]; [|apply preserves_refl].
      rewrite bind_run, bind_run.
      eapply preserves_trans; [apply handleSyncError_preserves|].
      eapply preserves_trans; [apply new_Date_preserves|]. apply IH. }
    destruct (status item); try exact Hfail.
    rewrite bind_run.
    eapply preserves_trans; [apply updateSyncStatus_preserves | apply IH].
Qed.

Lemma fail_batch_preserves (env : Env) (batch : list SyncQueueItem)
    (message : string) (t : Tally) (w : World) :
  preserves w (snd (fail_batch env batch message t w)).
Proof.
  revert t w. induction batch as [|item rest IH]; intros t w.
  - apply preserves_refl.
  - cbn [fail_batch]. rewrite bind_run, bind_run.
    eapply preserves_trans; [apply handleSyncError_preserves|].
    eapply preserves_trans; [apply new_Date_preserves | apply IH].
Qed.

Lemma processBatch_run (env : Env) (batch : list SyncQueueItem)
    (w : World) :
  db (snd (processBatch env batch w)) = db w
  /\ requests (snd (processBatch env batch w)) =
       requests w ++ [{| items := batch;
                         client_timestamp := clock env (ticks w) |}].
Proof.
  unfold processBatch. rewrite bind_run, bind_run. cbn [new_Date fst snd].
  cbn [axios_post fst snd requests ticks].
  destruct (post env _ _) as [message|processed].
  - split; reflexivity.
  - match goal with
    | |- context [resolve_conflicts processed ?x] =>
        destruct (resolve_conflicts_db processed x) as [D [R _]]
    end.
    rewrite D, R. split; reflexivity.
Qed.

(** One batch: the request goes out, whatever comes back; tasks keep
    identity and content; a bounded queue stays bounded. *)
Lemma sync_batch_run (env : Env) (batch : list SyncQueueItem) (t : Tally)
    (w : World) :
  map content (tasks (db (snd (sync_batch env batch t w))))
    = map content (tasks (db w))
  /\ (bounded w -> bounded (snd (sync_batch env batch t w)))
  /\ requests (snd (sync_batch env batch t w)) =
       requests w ++ [{| items := batch;
                         client_timestamp := clock env (ticks w) |}].
Proof.
  unfold sync_batch. rewrite bind_run.
  destruct (processBatch_run env batch w) as [D R].
  set (w1 := snd (processBatch env batch w)) in *.
  assert (H : preserves w1
    (snd (match fst (processBatch env batch w) with
          | inl message => fail_batch env batch message t
          | inr processed =>
              r <- apply_verdicts env batch processed t ;;
              match r with
              | (t', None) => ret t'
              | (t', Some message) => fail_batch env batch message t'
              end
          end w1))).
  { destruct (fst (processBatch env batch w)) as [message|processed].
    - apply fail_batch_preserves.
    - rewrite bind_run.
      eapply preserves_trans; [apply apply_verdicts_preserves|].
      destruct (fst (apply_verdicts env batch processed t w1))
        as [t' [message|]].
      + apply fail_batch_preserves.
      + apply preserves_refl. }
  destruct H as [C [Rq B]]. unfold bounded in *.
  rewrite C, Rq, R, D. repeat split. rewrite D in B. exact B.
Qed.

Lemma sync_batches_run (env : Env) (batches : list (list SyncQueueItem))
    (t : Tally) (w : World) :
  map content (tasks (db (snd (sync_batches env batches t w))))
    = map content (tasks (db w))
  /\ (bounded w -> bounded (snd (sync_batches env batches t w)))
  /\ map items (requests (snd (sync_batches env batches t w))) =
       map items (requests w) ++ batches.
Proof.
  revert t w. induction batches as [|batch rest IH]; intros t w.
  - cbn. rewrite app_nil_r. repeat split. auto.
  - cbn [sync_batches]. rewrite bind_run.
    destruct (sync_batch_run env batch t w) as [C1 [B1 R1]].
    destruct (IH (fst (sync_batch env batch t w))
                 (snd (sync_batch env batch t w))) as [C2 [B2 R2]].
    repeat split.
    + now rewrite C2.
    + auto.
    + rewrite R2, R1, map_app, <- app_assoc. reflexivity.
Qed.

(** ** Reading the queue and batching *)

Lemma insert_by_created_at_perm (x : SyncQueueItem)
    (l : list SyncQueueItem) :
  Permutation (insert_by_created_at x l) (x :: l).
Proof.
  induction l as [|y l IH]; cbn.
  - reflexivity.
  - destruct (iso_leb (q_created_at x) (q_created_at y)).
    + reflexivity.
    + rewrite IH. apply perm_swap.
Qed.

Lemma order_by_created_at_perm (l : list SyncQueueItem) :
  Permutation (order_by_created_at l) l.
Proof.
  induction l as [|x l IH]; cbn.
  - reflexivity.
  - rewrite insert_by_created_at_perm. now constructor.
Qed.

(** The order of the texts, in terms of their keys. *)
Lemma iso_leb_spec (a b : Z) :
  iso_leb a b = true <->
  (let '(c1, y1, m1) := iso_key a in
   let '(c2, y2, m2) := iso_key b in
   c1 < c2 \/ (c1 = c2 /\ (y1 < y2 \/ (y1 = y2 /\ m1 <= m2)))).
Proof.
  unfold iso_leb.
  destruct (iso_key a) as [[c1 y1] m1], (iso_key b) as [[c2 y2] m2].
  rewrite orb_true_iff, andb_true_iff, orb_true_iff, andb_true_iff.
  rewrite !Z.ltb_lt, !Z.eqb_eq, Z.leb_le. reflexivity.
Qed.

Lemma iso_leb_total (a b : Z) : iso_leb a b = false -> iso_leb b a = true.
Proof.
  intros H. apply iso_leb_spec. apply not_true_iff_false in H.
  rewrite iso_leb_spec in H.
  destruct (iso_key a) as [[c1 y1] m1], (iso_key b) as [[c2 y2] m2]. lia.
Qed.

Lemma iso_leb_trans (a b c : Z) :
  iso_leb a b = true -> iso_leb b c = true -> iso_leb a c = true.
Proof.
  rewrite !iso_leb_spec.
  destruct (iso_key a) as [[c1 y1] m1], (iso_key b) as [[c2 y2] m2],
           (iso_key c) as [[c3 y3] m3]. lia.
Qed.

(** For years printed with four digits the order of the texts is the
    order of the times. *)
Lemma iso_leb_four_digit (a b : Z) :
  0 <= year_of a <= 9999 -> 0 <= year_of b <= 9999 ->
  iso_leb a b = true -> a <= b.
Proof.
  intros Ha Hb. rewrite iso_leb_spec. unfold iso_key.
  destruct (Z.ltb_spec 9999 (year_of a)); [lia|].
  destruct (Z.ltb_spec (year_of a) 0); [lia|].
  destruct (Z.ltb_spec 9999 (year_of b)); [lia|].
  destruct (Z.ltb_spec (year_of b) 0); [lia|]. lia.
Qed.

Lemma insert_by_created_at_sorted (x : SyncQueueItem)
    (l : list SyncQueueItem) :
  StronglySorted by_created_at_text l ->
  StronglySorted by_created_at_text (insert_by_created_at x l).
Proof.
  induction 1 as [|y l Hs IH Hy]; cbn.
  - repeat constructor.
  - destruct (iso_leb (q_created_at x) (q_created_at y)) eqn:E.
    + constructor; [now constructor|].
      constructor; [exact E|].
      eapply Forall_impl; [|exact Hy].
      unfold by_created_at_text. intros b Hb.
      now apply (iso_leb_trans _ (q_created_at y)).
    + constructor; [exact IH|].
      eapply Permutation_Forall.
      * symmetry. apply insert_by_created_at_perm.
      * constructor; [now apply iso_leb_total | exact Hy].
Qed.

Lemma order_by_created_at_sorted (l : list SyncQueueItem) :
  StronglySorted by_created_at_text (order_by_created_at l).
Proof.
  induction l as [|x l IH]; cbn.
  - constructor.
  - now apply insert_by_created_at_sorted.
Qed.

Lemma StronglySorted_among {A : Type} (R R' : A -> A -> Prop)
    (l : list A) :
  (forall a b, In a l -> In b l -> R a b -> R' a b) ->
  StronglySorted R l -> StronglySorted R' l.
Proof.
  intros H Hs. induction Hs as [|a l Hs IH Ha].
  - constructor.
  - constructor.
    + apply IH. intros x y Hx Hy. apply H; now right.
    + rewrite Forall_forall in *. intros b Hb.
      apply H; [now left | now right | now apply Ha].
Qed.

Lemma slice_window {A : Type} (l : list A) (i k : Z) :
  0 <= i <= Z.of_nat (List.length l) -> 0 <= k ->
  slice l (Num i) (Num (i + k))
    = firstn (Z.to_nat k) (skipn (Z.to_nat i) l).
Proof.
  intros Hi Hk. unfold slice, relative_index.
  destruct (Z.ltb_spec i 0); [lia|].
  destruct (Z.ltb_spec (i + k) 0); [lia|].
  rewrite (Z.min_l i) by lia.
  destruct (Z.le_gt_cases (i + k) (Z.of_nat (List.length l))) as [Hle|Hgt].
  - rewrite Z.min_l by lia. f_equal. lia.
  - rewrite Z.min_r by lia.
    rewrite !firstn_all2; [reflexivity | |]; rewrite length_skipn; lia.
Qed.

(** With a batch size of at least 1 the loop ends within [length l]
    turns, and cuts what is left of [l] into runs of 1 to [size] items. *)
Lemma make_batches_positive {A : Type} (size : Z) (l : list A) :
  1 <= size ->
  forall (fuel : nat) (i : Z),
    0 <= i -> Z.of_nat (List.length l) - i <= Z.of_nat fuel ->
    exists bs : list (list A),
      make_batches fuel l (Num i) (Num size) = Some bs
      /\ List.concat bs = skipn (Z.to_nat i) l
      /\ Forall (fun b => 1 <= Z.of_nat (List.length b) <= size) bs.
Proof.
  intros Hsize. induction fuel as [|fuel IH]; intros i Hi Hfuel;
    cbn [make_batches num_lt num_add];
    destruct (Z.ltb_spec i (Z.of_nat (List.length l))) as [Hlt|Hge];
    try lia;
    try (exists []; split; [reflexivity|]; split; [|constructor];
         cbn; symmetry; apply skipn_all2; lia).
  destruct (IH (i + size)) as [bs [E [C F]]]; try lia.
  rewrite E. cbn [option_map]. eexists. split; [reflexivity|].
  rewrite slice_window by lia. split.
  - cbn [List.concat]. rewrite C.
    replace (Z.to_nat (i + size)) with (Z.to_nat size + Z.to_nat i)%nat
      by lia.
    rewrite <- skipn_skipn. apply firstn_skipn.
  - constructor; [|exact F].
    rewrite length_firstn, length_skipn. lia.
Qed.

(** With a batch size of zero or less the loop never ends. *)
Lemma make_batches_diverges {A : Type} (size : Z) (l : list A) :
  size <= 0 ->
  forall (fuel : nat) (i : Z),
    i < Z.of_nat (List.length l) ->
    make_batches fuel l (Num i) (Num size) = None.
Proof.
  intros Hsize. induction fuel as [|fuel IH]; intros i Hi;
    cbn [make_batches num_lt num_add];
    destruct (Z.ltb_spec i (Z.of_nat (List.length l))); try lia.
  - reflexivity.
  - rewrite IH by lia. reflexivity.
Qed.

(** C6, as stated, fails on the order: the query orders the stored texts,
    and the text of a time in the year 10000 starts with ['+'], which
    sorts before every digit.  The update enqueued then is read, and
    sent, before the one enqueued in 1970. *)
Lemma pending_text_order_is_not_time_order :
  q_created_at Sample.queued_update < q_created_at Sample.late_update
  /\ pendingItems (db Sample.late_world)
     = [Sample.late_update; Sample.queued_update]
  /\ ~ StronglySorted oldest_first (pendingItems (db Sample.late_world))
  /\ exists (r : SyncResult) (w' : World),
       sync Sample.timeout_env Sample.late_world = Some (r, w')
       /\ map items (requests w')
          = [[Sample.late_update]; [Sample.queued_update]].
Proof.
  assert (E : pendingItems (db Sample.late_world)
              = [Sample.late_update; Sample.queued_update])
    by (vm_compute; reflexivity).
  split; [reflexivity | split; [exact E | split]].
  - rewrite E. intros H. inversion H as [|a l _ Hall]; subst.
    inversion Hall as [|b l' Hle _]; subst.
    unfold oldest_first in Hle. vm_compute in Hle. now apply Hle.
  - do 2 eexists. split; [vm_compute; reflexivity | reflexivity].
Qed.

(** C6, amended: a run reads the queue rows whose retry counter is below
    3 in the order of the stored [created_at] texts, which is oldest
    first when the rows were enqueued in the years 0000 to 9999; it cuts
    them, in that order, into consecutive batches of 1 to [size] items,
    [size] being the batch size the environment configures (50 when it
    configures none), and posts one request per batch, in order. *)
Theorem sync_reads_pending_in_configured_batches (env : Env) (w : World)
    (size : Z) :
  health env = true ->
  configured env size ->
  1 <= size ->
  Permutation (pendingItems (db w))
    (filter (fun i => q_retry_count i <? 3) (sync_queue (db w)))
  /\ StronglySorted by_created_at_text (pendingItems (db w))
  /\ (Forall four_digit_year (pendingItems (db w)) ->
      StronglySorted oldest_first (pendingItems (db w)))
  /\ exists (batches : list (list SyncQueueItem)) (r : SyncResult)
            (w' : World),
       sync env w = Some (r, w')
       /\ List.concat batches = pendingItems (db w)
       /\ Forall (fun b => 1 <= Z.of_nat (List.length b) <= size) batches
       /\ map items (requests w') = map items (requests w) ++ batches.
Proof.
  intros Hh Hcfg Hpos.
  assert (Hsz : BATCH_SIZE env = Num size).
  { unfold BATCH_SIZE. destruct Hcfg as [E|[E ->]]; now rewrite E. }
  split; [|split; [|split]].
  - apply order_by_created_at_perm.
  - apply order_by_created_at_sorted.
  - intros Hy.
    apply (StronglySorted_among by_created_at_text);
      [|apply order_by_created_at_sorted].
    rewrite Forall_forall in Hy. intros a b Ha Hb.
    apply iso_leb_four_digit; [now apply Hy | now apply Hy].
  - unfold sync, checkConnectivity, ret. rewrite Hh. cbn [negb].
    destruct (Z.eqb_spec (Z.of_nat (List.length (pendingItems (db w)))) 0)
      as [He|Hne].
    + exists [], {| success := true; synced_items := 0; failed_items := 0;
                    errors := [] |}, w.
      split; [reflexivity | split; [|split; [constructor|]]].
      * destruct (pendingItems (db w)); [reflexivity | discriminate].
      * now rewrite app_nil_r.
    + rewrite Hsz.
      destruct (make_batches_positive size (pendingItems (db w)) Hpos
                  (List.length (pendingItems (db w))) 0)
        as [bs [E [C F]]]; try lia.
      rewrite E.
      destruct (sync_batches env bs
                  {| syncedItems := 0; failedItems := 0;
                     errors_so_far := [] |} w) as [t w2] eqn:Er.
      exists bs. do 2 eexists. split; [reflexivity|].
      split; [exact C | split; [exact F|]].
      destruct (sync_batches_run env bs
                  {| syncedItems := 0; failedItems := 0;
                     errors_so_far := [] |} w) as [_ [_ R]].
      rewrite Er in R. exact R.
Qed.

Lemma sync_reads_pending_in_configured_batches_witness :
  StronglySorted oldest_first (pendingItems (db Sample.two_items_world))
  /\ exists (batches : list (list SyncQueueItem)) (r : SyncResult)
            (w' : World),
       sync Sample.timeout_env Sample.two_items_world = Some (r, w')
       /\ List.concat batches = pendingItems (db Sample.two_items_world)
       /\ Forall (fun b => 1 <= Z.of_nat (List.length b) <= 1) batches
       /\ map items (requests w') =
            map items (requests Sample.two_items_world) ++ batches.
Proof.
  destruct (sync_reads_pending_in_configured_batches
              Sample.timeout_env Sample.two_items_world 1)
    as [_ [_ [S B]]].
  - reflexivity.
  - left. reflexivity.
  - lia.
  - split; [|exact B].
    apply S.
    replace (pendingItems (db Sample.two_items_world))
      with [Sample.queued_create; Sample.queued_update]
      by (vm_compute; reflexivity).
    repeat constructor; vm_compute; discriminate.
Defined.

(** ** Recording a failure *)

Lemma flat_map_compose_in {A : Type} (f g h : A -> list A) (l : list A) :
  (forall x, In x l -> flat_map g (f x) = h x) ->
  flat_map g (flat_map f l) = flat_map h l.
Proof.
  induction l as [|a l IH]; intros H; cbn.
  - reflexivity.
  - rewrite flat_map_app, H, IH; [reflexivity | | now left].
    intros x Hx. apply H. now right.
Qed.

Lemma update_where_flat_map {A : Type} (p : A -> bool) (f : A -> A)
    (l : list A) :
  update_where p f l = flat_map (fun r => if p r then [f r] else [r]) l.
Proof.
  induction l as [|r l IH]; cbn; [reflexivity|].
  rewrite <- IH. now destruct (p r).
Qed.

Lemma delete_update_where {A : Type} (p : A -> bool) (f : A -> A)
    (l : list A) :
  (forall r, p (f r) = p r) ->
  delete_where p (update_where p f l)
    = flat_map (fun r => if p r then [] else [r]) l.
Proof.
  intros H. induction l as [|r l IH]; cbn; [reflexivity|].
  destruct (p r) eqn:E.
  - rewrite H, E. cbn. exact IH.
  - rewrite E. cbn. now rewrite <- IH.
Qed.

(** The queue after [handleSyncError], by the counter of the item passed
    (the snapshot read at the start of the run). *)
Lemma handleSyncError_queue (item : SyncQueueItem) (message : string)
    (w : World) :
  sync_queue (db (snd (handleSyncError item message w))) =
    flat_map
      (fun r =>
         if String.eqb (q_id r) (q_id item) then
           if q_retry_count item + 1 >=? 3 then []
           else [with_retry (q_retry_count item + 1)
                   (Some (or_default message "Unknown error")) r]
         else [r])
      (sync_queue (db w)).
Proof.
  unfold handleSyncError. rewrite bind_run.
  cbn -[update_where delete_where].
  destruct (q_retry_count item + 1 >=? 3);
    cbn -[update_where delete_where].
  - apply delete_update_where. reflexivity.
  - apply update_where_flat_map.
Qed.

(** Rows have distinct identifiers: the identifier names the row. *)
Lemma same_id_same_row (q : list SyncQueueItem) (a b : SyncQueueItem) :
  NoDup (map q_id q) -> In a q -> In b q -> q_id a = q_id b -> a = b.
Proof.
  intros Hnd Ha Hb E. induction q as [|c q IH]; [contradiction|].
  cbn in Hnd. inversion Hnd as [|x l Hnc Hnd']; subst.
  destruct Ha as [->|Ha], Hb as [->|Hb]; try reflexivity.
  - exfalso. apply Hnc. rewrite E. now apply in_map.
  - exfalso. apply Hnc. rewrite <- E. now apply in_map.
  - now apply IH.
Qed.

Lemma snapshot_of_rows (batch q : list SyncQueueItem) :
  NoDup (map q_id q) -> incl batch q -> snapshot_of batch q.
Proof.
  intros Hnd Hincl item r Hi Hr E.
  now rewrite (same_id_same_row q r item Hnd Hr (Hincl item Hi) E).
Qed.

Lemma NoDup_rows_ids (batch q : list SyncQueueItem) :
  NoDup (map q_id q) -> NoDup batch -> incl batch q ->
  NoDup (map q_id batch).
Proof.
  intros Hq Hb Hincl. induction batch as [|a batch IH]; cbn.
  - constructor.
  - inversion Hb as [|x l Hna Hb']; subst. constructor.
    + intros Hin. apply in_map_iff in Hin. destruct Hin as [b [E Hbin]].
      apply Hna.
      rewrite <- (same_id_same_row q b a Hq (Hincl b (or_intror Hbin))
                    (Hincl a (or_introl eq_refl)) E).
      exact Hbin.
    + apply IH; [exact Hb'|]. intros x Hx. apply Hincl. now right.
Qed.

Lemma existsb_id_false (id : string) (l : list SyncQueueItem) :
  ~ In id (map q_id l) -> existsb (String.eqb id) (map q_id l) = false.
Proof.
  intros H. destruct (existsb _ _) eqn:E; [|reflexivity].
  apply existsb_exists in E. destruct E as [x [Hx Ex]].
  apply String.eqb_eq in Ex. subst x. contradiction.
Qed.

(** The [catch] loop records one failure on every row of the batch. *)
Lemma fail_batch_queue (env : Env) (message : string)
    (batch : list SyncQueueItem) :
  forall (t : Tally) (w : World),
    NoDup (map q_id batch) ->
    snapshot_of batch (sync_queue (db w)) ->
    sync_queue (db (snd (fail_batch env batch message t w))) =
      flat_map
        (fun r =>
           if existsb (String.eqb (q_id r)) (map q_id batch)
           then recordFailure (or_default message "Unknown error") r
           else [r])
        (sync_queue (db w)).
Proof.
  induction batch as [|item rest IH]; intros t w Hnd Hsnap.
  - cbn. induction (sync_queue (db w)) as [|r q IHq]; cbn;
      [reflexivity | now rewrite <- IHq].
  - cbn [fail_batch]. rewrite bind_run, bind_run.
    cbn [map] in Hnd. inversion Hnd as [|x l Hni Hnd']; subst.
    rewrite IH; [|exact Hnd'|].
    + cbn [new_Date snd db]. rewrite handleSyncError_queue.
      apply flat_map_compose_in. intros r Hr. cbn [map existsb].
      destruct (String.eqb_spec (q_id r) (q_id item)) as [E|N]; cbn [orb].
      * unfold recordFailure.
        rewrite (Hsnap item r (or_introl eq_refl) Hr E).
        destruct (q_retry_count item + 1 >=? 3); [reflexivity|].
        cbn [flat_map with_retry q_id]. rewrite E.
        rewrite (existsb_id_false _ _ Hni). now rewrite app_nil_r.
      * cbn [flat_map]. now rewrite app_nil_r.
    + cbn [new_Date snd db]. rewrite handleSyncError_queue.
      intros item' r' Hi' Hr' E'.
      apply in_flat_map in Hr'. destruct Hr' as [r [Hr Hin]].
      destruct (String.eqb_spec (q_id r) (q_id item)) as [E|N].
      * exfalso. apply Hni.
        destruct (q_retry_count item + 1 >=? 3); [contradiction|].
        destruct Hin as [<-|[]]. cbn in E'. rewrite <- E, E'.
        now apply in_map.
      * destruct Hin as [<-|[]].
        apply (Hsnap item' r (or_intror Hi') Hr E').
Qed.

(** The [catch] loop counts one failure and adds one entry per item. *)
Lemma fail_batch_tally (env : Env) (message : string)
    (batch : list SyncQueueItem) :
  forall (t : Tally) (w : World),
    exists es : list SyncError,
      errors_so_far (fst (fail_batch env batch message t w))
        = errors_so_far t ++ es
      /\ map (fun e => (e_task_id e, e_operation e, e_error e)) es
         = map (fun i => (q_task_id i, operation_text (q_operation i),
                          message)) batch
      /\ failedItems (fst (fail_batch env batch message t w))
         = failedItems t + Z.of_nat (List.length batch)
      /\ syncedItems (fst (fail_batch env batch message t w))
         = syncedItems t.
Proof.
  induction batch as [|item rest IH]; intros t w.
  - exists []. cbn. rewrite app_nil_r. repeat split. lia.
  - cbn [fail_batch]. rewrite bind_run, bind_run.
    match goal with
    | |- context [fail_batch env rest message ?t1 ?w1] =>
        destruct (IH t1 w1) as [es [E [Mp [F S]]]]
    end.
    eexists (_ :: es). rewrite E, F, S. cbn [count_failed errors_so_far
      failedItems syncedItems map List.length e_task_id e_operation e_error].
    rewrite <- app_assoc, Mp. repeat split. lia.
Qed.

(** The batches of a run are made of distinct rows of the queue the run
    started from. *)
Lemma pending_batches_are_rows (d : Database)
    (batches : list (list SyncQueueItem)) :
  NoDup (map q_id (sync_queue d)) ->
  List.concat batches = pendingItems d ->
  forall batch, In batch batches ->
    NoDup batch /\ incl batch (sync_queue d).
Proof.
  intros Hids Hc.
  assert (Hnd : NoDup (List.concat batches)).
  { rewrite Hc. unfold pendingItems.
    eapply Permutation_NoDup.
    - symmetry. apply order_by_created_at_perm.
    - apply NoDup_filter. eapply NoDup_map_inv. exact Hids. }
  assert (Hin : forall x, In x (List.concat batches) -> In x (sync_queue d)).
  { intros x Hx. rewrite Hc in Hx. unfold pendingItems in Hx.
    apply (Permutation_in _ (order_by_created_at_perm _)) in Hx.
    apply filter_In in Hx. apply Hx. }
  clear Hc. induction batches as [|b bs IH]; intros batch Hb.
  - contradiction.
  - cbn [List.concat] in Hnd, Hin. destruct Hb as [->|Hb].
    + split.
      * eapply NoDup_app_remove_r. exact Hnd.
      * intros x Hx. apply Hin, in_or_app. now left.
    + apply IH; [ | | exact Hb].
      * eapply NoDup_app_remove_l. exact Hnd.
      * intros x Hx. apply Hin, in_or_app. now right.
Qed.

(** When [axios.post] throws, [sync_batch] is the [catch] loop. *)
Lemma sync_batch_throws (env : Env) (batch : list SyncQueueItem)
    (t : Tally) (w : World) (message : string) :
  post env (List.length (requests w))
    {| items := batch; client_timestamp := clock env (ticks w) |}
    = PostThrows message ->
  sync_batch env batch t w =
    fail_batch env batch message t
      {| db := db w; ticks := S (ticks w); draws := draws w;
         requests := requests w ++
           [{| items := batch; client_timestamp := clock env (ticks w) |}];
         console := console w |}.
Proof.
  intros H. unfold sync_batch, processBatch, bind, new_Date, axios_post.
  cbn. rewrite H. reflexivity.
Qed.

(** ** A batch the transport fails *)

(** C3, as stated, fails on the counters: a success verdict deletes every
    queue row of its task, so an item of a later batch of the same run
    can be without a row.  With batches of one item, the creation of
    task A confirmed and the submission of its update timing out, the
    failed batch of one item adds its error entry and raises no
    counter: no row is left to count on. *)
Lemma transport_failure_on_deleted_row :
  (forall request,
      post Sample.flaky_env 1 request
      = PostThrows "timeout of 30000ms exceeded")
  /\ exists (r : SyncResult) (w' : World),
       sync Sample.flaky_env Sample.two_items_world = Some (r, w')
       /\ map items (requests w')
          = [[Sample.queued_create]; [Sample.queued_update]]
       /\ synced_items r = 1
       /\ failed_items r = 1
       /\ map entry_of (errors r)
          = [("A", "update", "timeout of 30000ms exceeded")]
       /\ sync_queue (db w') = []
       /\ ~ (exists row, In row (sync_queue (db w'))
                         /\ q_id row = q_id Sample.queued_update
                         /\ q_retry_count row
                            = q_retry_count Sample.queued_update + 1).
Proof.
  split; [reflexivity|].
  do 2 eexists. split; [vm_compute; reflexivity|].
  repeat split. intros [row [[] _]].
Qed.

(** C3, amended: when the submission of a batch of N items throws, the
    run counts N failed items, appends N error entries that name the
    items' tasks and operations and the transport's message, and goes on
    to post every later batch; and when the N items are distinct rows
    still in the queue (rows have distinct identifiers), it records one
    failure on each of those N rows and on no other row: the counter goes
    up by one and the text is stored, and a row whose counter reaches 3
    is removed. *)
Theorem transport_failure_fails_batch_of_rows (env : Env)
    (batch : list SyncQueueItem) (rest : list (list SyncQueueItem))
    (t : Tally) (w : World) (message : string) :
  post env (List.length (requests w))
    {| items := batch; client_timestamp := clock env (ticks w) |}
    = PostThrows message ->
  exists (t' : Tally) (w' : World) (es : list SyncError),
    sync_batch env batch t w = (t', w')
    /\ errors_so_far t' = errors_so_far t ++ es
    /\ List.length es = List.length batch
    /\ map entry_of es
       = map (fun i => (q_task_id i, operation_text (q_operation i),
                        message)) batch
    /\ failedItems t' = failedItems t + Z.of_nat (List.length batch)
    /\ syncedItems t' = syncedItems t
    /\ sync_batches env (batch :: rest) t w = sync_batches env rest t' w'
    /\ map items (requests (snd (sync_batches env rest t' w')))
       = map items (requests w) ++ batch :: rest
    /\ (NoDup (map q_id (sync_queue (db w))) ->
        NoDup batch ->
        incl batch (sync_queue (db w)) ->
        sync_queue (db w') =
          flat_map
            (fun r =>
               if existsb (String.eqb (q_id r)) (map q_id batch)
               then recordFailure (or_default message "Unknown error") r
               else [r])
            (sync_queue (db w))
        /\ (forall r, In r (sync_queue (db w)) ->
              (existsb (String.eqb (q_id r)) (map q_id batch) = true
               <-> In r batch))).
Proof.
  intros Hpost.
  pose proof (sync_batch_throws env batch t w message Hpost) as Hthrow.
  set (w1 := {| db := db w; ticks := S (ticks w); draws := draws w;
                requests := requests w ++
                  [{| items := batch;
                      client_timestamp := clock env (ticks w) |}];
                console := console w |}) in *.
  destruct (fail_batch_tally env message batch t w1)
    as [es [E [Mp [F S]]]].
  pose proof (fail_batch_queue env message batch t w1) as Q.
  destruct (fail_batch env batch message t w1) as [t' w'] eqn:Ef.
  cbn [fst snd] in *.
  exists t', w', es.
  assert (Hstep : sync_batches env (batch :: rest) t w
                  = sync_batches env rest t' w').
  { cbn [sync_batches]. unfold bind. now rewrite Hthrow. }
  split; [exact Hthrow | split; [exact E | split; [|split; [exact Mp|]]]].
  - rewrite <- (length_map (fun e => (e_task_id e, e_operation e, e_error e))).
    rewrite Mp. apply length_map.
  - split; [exact F | split; [exact S | split; [exact Hstep | split]]].
    + rewrite <- Hstep.
      destruct (sync_batches_run env (batch :: rest) t w) as [_ [_ R]].
      exact R.
    + intros Hids Hnd Hincl. split.
      * apply Q.
        -- now apply (NoDup_rows_ids batch (sync_queue (db w))).
        -- now apply snapshot_of_rows.
      * intros r Hr. split.
        -- intros Hex. apply existsb_exists in Hex.
           destruct Hex as [id [Hid Heq]]. apply String.eqb_eq in Heq.
           subst id. apply in_map_iff in Hid. destruct Hid as [b [Hb Hbin]].
           rewrite (same_id_same_row _ r b Hids Hr (Hincl b Hbin)
                      (eq_sym Hb)).
           exact Hbin.
        -- intros Hin. apply existsb_exists. exists (q_id r).
           split; [now apply in_map | apply String.eqb_refl].
Qed.

Lemma transport_failure_fails_batch_of_rows_witness :
  exists (t' : Tally) (w' : World),
    sync_batch Sample.timeout_env [Sample.queued_update]
      {| syncedItems := 0; failedItems := 0; errors_so_far := [] |}
      Sample.world = (t', w')
    /\ failedItems t' = 1
    /\ List.length (errors_so_far t') = 1%nat
    /\ map q_retry_count (sync_queue (db w')) = [1].
Proof.
  destruct (transport_failure_fails_batch_of_rows Sample.timeout_env
              [Sample.queued_update] []
              {| syncedItems := 0; failedItems := 0; errors_so_far := [] |}
              Sample.world "timeout of 30000ms exceeded" eq_refl)
    as [t' [w' [es [E [Er [L [_ [F [_ [_ [_ Q]]]]]]]]]]].
  exists t', w'. split; [exact E | split; [exact F | split]].
  - rewrite Er. cbn. exact L.
  - destruct Q as [Q _].
    + cbn. repeat constructor. intros [].
    + repeat constructor. intros [].
    + intros x Hx. exact Hx.
    + rewrite Q. reflexivity.
Defined.

(** ** The retry bound *)

Lemma delete_where_update_where {A : Type} (p : A -> bool) (f : A -> A)
    (l : list A) :
  (forall r, p (f r) = p r) ->
  delete_where p (update_where p f l) = delete_where p l.
Proof.
  intros H. unfold delete_where, update_where.
  induction l as [|r l IH]; cbn; [reflexivity|].
  destruct (p r) eqn:E.
  - rewrite H, E. cbn. exact IH.
  - rewrite E. cbn. now rewrite IH.
Qed.

Lemma sync_bounded (env : Env) (w : World) (r : SyncResult) (w' : World) :
  bounded w -> sync env w = Some (r, w') -> bounded w'.
Proof.
  intros Hb. unfold sync, checkConnectivity, ret.
  destruct (health env); cbn [negb].
  - destruct (Z.of_nat (List.length (pendingItems (db w))) =? 0).
    + intros E. injection E as _ <-. exact Hb.
    + destruct (make_batches _ _ _ _) as [batches|]; [|discriminate].
      destruct (sync_batches_run env batches
                  {| syncedItems := 0; failedItems := 0;
                     errors_so_far := [] |} w) as [_ [B _]].
      destruct (sync_batches env batches _ w) as [t w2].
      intros E. injection E as _ <-. apply B, Hb.
  - cbn. intros E. injection E as _ <-. exact Hb.
Qed.

(** A run writes no identity and no content of a task. *)
Lemma sync_content (env : Env) (w : World) (r : SyncResult) (w' : World) :
  sync env w = Some (r, w') ->
  map content (tasks (db w')) = map content (tasks (db w)).
Proof.
  unfold sync, checkConnectivity, ret.
  destruct (health env); cbn [negb].
  - destruct (Z.of_nat (List.length (pendingItems (db w))) =? 0).
    + intros E. injection E as _ <-. reflexivity.
    + destruct (make_batches _ _ _ _) as [batches|]; [|discriminate].
      destruct (sync_batches_run env batches
                  {| syncedItems := 0; failedItems := 0;
                     errors_so_far := [] |} w) as [C _].
      destruct (sync_batches env batches _ w) as [t w2].
      intros E. injection E as _ <-. exact C.
  - cbn. intros E. injection E as _ <-. reflexivity.
Qed.

Lemma reachable_bounded (w : World) : reachable w -> bounded w.
Proof.
  induction 1 as [w Ht Hq | env td w H IH | env id u w H IH
                 | env id w H IH | env id op data w H IH
                 | env w r w' H IH Hs].
  - unfold bounded. rewrite Hq. constructor.
  - unfold bounded in *. cbn. apply Forall_app. split; [exact IH|].
    constructor; [reflexivity | constructor].
  - unfold updateTask. rewrite bind_run. cbn [getTask fst snd].
    destruct (option_map _ _) as [existing|]; [|exact IH].
    unfold bounded in *. cbn. apply Forall_app. split; [exact IH|].
    constructor; [reflexivity | constructor].
  - unfold deleteTask. rewrite bind_run. cbn [getTask fst snd].
    destruct (option_map _ _) as [task|]; [|exact IH].
    unfold bounded in *. cbn. apply Forall_app. split; [exact IH|].
    constructor; [reflexivity | constructor].
  - unfold bounded in *. cbn. apply Forall_app. split; [exact IH|].
    constructor; [reflexivity | constructor].
  - exact (sync_bounded env w r w' IH Hs).
Qed.

(** C4, as stated, fails on the increment: [sync] records a failure with
    the item as read at the start of the run, found by the task of the
    verdict, and [handleSyncError] writes that item's counter plus one.
    When the server rejects both items of task A, both failures are
    recorded on the first of them: two failures are counted, its counter
    stands at 1 after the second as after the first, and the counter of
    the other item is not raised. *)
Lemma second_failure_raises_no_counter :
  exists (r : SyncResult) (w' : World),
    sync Sample.rejecting_env Sample.two_items_world = Some (r, w')
    /\ failed_items r = 2
    /\ map entry_of (errors r)
       = [("A", "create", "rejected"); ("A", "create", "rejected")]
    /\ map (fun i => (q_id i, q_retry_count i)) (sync_queue (db w'))
       = [("sync_0", 1); ("sync_1", 0)]
    /\ map q_retry_count
         (sync_queue
            (db (snd (handleSyncError Sample.queued_create "rejected"
                        (snd (handleSyncError Sample.queued_create
                                "rejected" Sample.two_items_world))))))
       = map q_retry_count
           (sync_queue
              (db (snd (handleSyncError Sample.queued_create "rejected"
                          Sample.two_items_world)))).
Proof.
  do 2 eexists. split; [vm_compute; reflexivity|].
  repeat split.
Qed.

(** C4, amended: recording a failure with an item writes the item's own
    counter plus one, and the error text, to the queue rows that have the
    item's identifier; when that number reaches 3 it gives the rows of the
    owning task sync status error and the message "Max retries exceeded:
    ...", and deletes those queue rows.  So a row's counter goes up by
    exactly one when the item is the row as it stands (the first failure
    recorded on it in a run); nothing is raised when the item is older
    than the row, or the row is gone.  A run keeps every counter below
    3, and no world the services bring about holds a queue row with a
    counter of 3 or more. *)
Theorem recorded_failure_writes_item_counter :
  (forall (item : SyncQueueItem) (message : string) (w : World),
      let w' := snd (handleSyncError item message w) in
      let text := or_default message "Unknown error" in
      (q_retry_count item + 1 < 3 ->
       sync_queue (db w') =
         map (fun r =>
                if String.eqb (q_id r) (q_id item)
                then with_retry (q_retry_count item + 1) (Some text) r
                else r)
           (sync_queue (db w))
       /\ tasks (db w') = tasks (db w))
      /\ (3 <= q_retry_count item + 1 ->
          sync_queue (db w') =
            filter (fun r => negb (String.eqb (q_id r) (q_id item)))
              (sync_queue (db w))
          /\ (forall r, In r (sync_queue (db w')) -> q_id r <> q_id item)
          /\ Forall2
               (fun r r' =>
                  content r' = content r
                  /\ (t_id (r_task r) <> q_task_id item -> r' = r)
                  /\ (t_id (r_task r) = q_task_id item ->
                      t_sync_status (r_task r') = Error
                      /\ r_error_message r' =
                           Some ("Max retries exceeded: " ++ text)%string))
               (tasks (db w)) (tasks (db w')))
      /\ (In item (sync_queue (db w)) ->
          NoDup (map q_id (sync_queue (db w))) ->
          q_retry_count item + 1 < 3 ->
          In (with_retry (q_retry_count item + 1) (Some text) item)
            (sync_queue (db w'))
          /\ forall r, In r (sync_queue (db w')) ->
               q_id r = q_id item ->
               q_retry_count r = q_retry_count item + 1))
  /\ (forall (env : Env) (w : World) (r : SyncResult) (w' : World),
      bounded w -> sync env w = Some (r, w') -> bounded w')
  /\ (forall w : World, reachable w -> bounded w).
Proof.
  split; [|split; [exact sync_bounded | exact reachable_bounded]].
  intros item message w w' text. subst w'.
  unfold handleSyncError. rewrite bind_run.
  cbn -[update_where delete_where].
  destruct (Z.geb_spec (q_retry_count item + 1) 3) as [Hge|Hlt];
    cbn -[update_where delete_where];
    (split; [intros H3 | split; [intros H3 | intros Hin Hnd H3]]);
    try lia.
  - split; [|split].
    + rewrite delete_where_update_where by reflexivity. reflexivity.
    + intros r Hr. rewrite delete_where_update_where in Hr by reflexivity.
      apply in_delete_where in Hr. destruct Hr as [_ Hr].
      intros E. rewrite E, String.eqb_refl in Hr. discriminate.
    + apply Forall2_update_where. intros r _.
      destruct (String.eqb_spec (t_id (r_task r)) (q_task_id item))
        as [e|n].
      * split; [reflexivity | split].
        -- intros Hn. contradiction.
        -- intros _. split; reflexivity.
      * split; [reflexivity | split].
        -- reflexivity.
        -- intros He. contradiction.
  - split; reflexivity.
  - fold text. unfold update_where. split.
    + apply in_map_iff. exists item.
      split; [now rewrite String.eqb_refl | exact Hin].
    + intros r Hr E. apply in_map_iff in Hr. destruct Hr as [r0 [E0 Hr0]].
      destruct (String.eqb_spec (q_id r0) (q_id item)) as [Ei|Ni].
      * now subst r.
      * subst r. contradiction.
Qed.

Lemma recorded_failure_writes_item_counter_witness :
  map q_retry_count
    (sync_queue (db (snd (handleSyncError Sample.queued_update
                            "timeout of 30000ms exceeded" Sample.world))))
  = [1]
  /\ In (with_retry 1 (Some "timeout of 30000ms exceeded")
           Sample.queued_update)
       (sync_queue (db (snd (handleSyncError Sample.queued_update
                               "timeout of 30000ms exceeded"
                               Sample.world))))
  /\ bounded (snd (createTask Sample.conflict_env
                     {| td_title := "X"; td_description := None;
                        td_completed := None |}
                     Sample.blank_world)).
Proof.
  destruct (proj1 recorded_failure_writes_item_counter Sample.queued_update
              "timeout of 30000ms exceeded" Sample.world)
    as [Hlt [_ Hrow]].
  split; [|split].
  - destruct Hlt as [Q _]; [cbn; lia|]. rewrite Q. reflexivity.
  - apply Hrow.
    + now left.
    + cbn. repeat constructor. intros [].
    + cbn. lia.
  - apply (proj2 (proj2 recorded_failure_writes_item_counter)).
    apply reach_createTask. now apply reach_empty.
Defined.

(** With a batch size of zero or less and something pending, [sync] does
    not return. *)
Lemma sync_diverges (env : Env) (w : World) (size : Z) :
  health env = true ->
  BATCH_SIZE env = Num size ->
  size <= 0 ->
  pendingItems (db w) <> [] ->
  sync env w = None.
Proof.
  intros Hh Hsz Hneg Hne. unfold sync, checkConnectivity, ret.
  rewrite Hh. cbn [negb].
  destruct (Z.eqb_spec (Z.of_nat (List.length (pendingItems (db w)))) 0)
    as [He|Hn0].
  - destruct (pendingItems (db w)); [contradiction | discriminate].
  - rewrite Hsz, make_batches_diverges; [reflexivity | exact Hneg | lia].
Qed.

(** ** A conflict with a later server version *)

(** C1, the code on the scenario: task A has a queued update and local
    last-modified time 1000, and the server reports a conflict with its
    version of time 2000 and title "Server Update".  The version comes in
    the JSON body of the response, its [updated_at] is text, and
    [resolveConflict] throws on it: the batch is failed as a whole.  After
    the run the result says failure, the queue entry is still there with
    one more retry, the task is still pending and its title is still
    "Local Update".  When a stubbed transport hands the version over with
    [Date] objects, the conflict is resolved for the server, the entry is
    removed and the task is synced, and the stored title is still "Local
    Update": the winner reaches [updateSyncStatus], which writes the sync
    status, the last-synced time and the server identifier only. *)
Theorem conflict_with_server_version_keeps_local_title :
  t_updated_at Sample.local_task < t_updated_at Sample.server_task
  /\ t_title Sample.server_task = "Server Update"
  /\ (exists (r : SyncResult) (w' : World),
        sync Sample.conflict_env Sample.world = Some (r, w')
        /\ success r = false
        /\ synced_items r = 0
        /\ failed_items r = 1
        /\ map entry_of (errors r)
           = [("A", "update",
               "serverTask.updated_at.getTime is not a function")]
        /\ map (fun i => (q_id i, q_retry_count i, q_error_message i))
             (sync_queue (db w'))
           = [("sync_1", 1,
               Some "serverTask.updated_at.getTime is not a function")]
        /\ map (fun row => (t_id (r_task row), t_title (r_task row),
                            t_sync_status (r_task row)))
             (tasks (db w'))
           = [("A", "Local Update", Pending)]
        /\ console w' = [])
  /\ (exists (r : SyncResult) (w' : World),
        sync Sample.typed_conflict_env Sample.world = Some (r, w')
        /\ success r = true
        /\ synced_items r = 1
        /\ sync_queue (db w') = []
        /\ map (fun row => (t_id (r_task row), t_title (r_task row),
                            t_sync_status (r_task row)))
             (tasks (db w'))
           = [("A", "Local Update", Synced)]
        /\ console w'
           = ["Conflict resolved for task A: server version won"]).
Proof.
  split; [reflexivity | split; [reflexivity | split]].
  - do 2 eexists. split; [vm_compute; reflexivity|]. repeat split.
  - do 2 eexists. split; [vm_compute; reflexivity|]. repeat split.
Qed.

(** * Further properties of the two services *)

(** ** The counts of a result *)

Lemma count_failed_counts (e : SyncError) (t : Tally) :
  tally_counts t -> tally_counts (count_failed e t).
Proof.
  intros [F S]. split; cbn; [|exact S].
  rewrite length_app, F. cbn. lia.
Qed.

Lemma fail_batch_counts (env : Env) (message : string)
    (batch : list SyncQueueItem) :
  forall (t : Tally) (w : World),
    tally_counts t -> tally_counts (fst (fail_batch env batch message t w)).
Proof.
  induction batch as [|item rest IH]; intros t w H.
  - exact H.
  - cbn [fail_batch]. rewrite bind_run, bind_run.
    apply IH, count_failed_counts, H.
Qed.

Lemma apply_verdicts_counts (env : Env) (batch : list SyncQueueItem)
    (processed : list ProcessedItem) :
  forall (t : Tally) (w : World),
    tally_counts t ->
    tally_counts (fst (fst (apply_verdicts env batch processed t w))).
Proof.
  induction processed as [|item rest IH]; intros t w H.
  - exact H.
  - cbn [apply_verdicts].
    assert (Hfail : forall w0,
      tally_counts (fst (fst
        (match find (fun b => String.eqb (q_task_id b) (client_id item))
                 batch with
         | None => ret (t, Some undefined_item_message)
         | Some b =>
             handleSyncError b
               (opt_or_default (error item) "Sync failed") ;;
             now <- new_Date env ;;
             apply_verdicts env batch rest
               (count_failed
                  {| e_task_id := client_id item;
                     e_operation := operation_text (q_operation b);
                     e_error := opt_or_default (error item) "Sync failed";
                     e_timestamp := now |} t)
         end w0)))).
    { intros w0. destruct (find _ batch) as [b|]; [|exact H].
      rewrite bind_run, bind_run. apply IH, count_failed_counts, H. }
    destruct (status item); try apply Hfail.
    rewrite bind_run. apply IH. destruct H as [F S].
    split; cbn; [exact F | lia].
Qed.

Lemma sync_batch_counts (env : Env) (batch : list SyncQueueItem)
    (t : Tally) (w : World) :
  tally_counts t -> tally_counts (fst (sync_batch env batch t w)).
Proof.
  intros H. unfold sync_batch. rewrite bind_run.
  destruct (fst (processBatch env batch w)) as [message|processed].
  - apply fail_batch_counts, H.
  - rewrite bind_run.
    pose proof (apply_verdicts_counts env batch processed t
                  (snd (processBatch env batch w)) H) as H'.
    destruct (fst (apply_verdicts env batch processed t _))
      as [t' [message|]]; cbn [fst] in H'.
    + apply fail_batch_counts, H'.
    + exact H'.
Qed.

Lemma sync_batches_counts (env : Env)
    (batches : list (list SyncQueueItem)) :
  forall (t : Tally) (w : World),
    tally_counts t -> tally_counts (fst (sync_batches env batches t w)).
Proof.
  induction batches as [|batch rest IH]; intros t w H.
  - exact H.
  - cbn [sync_batches]. rewrite bind_run. apply IH, sync_batch_counts, H.
Qed.

(** X1: in the result of a run that found the server reachable, the failed
    count is the number of error entries, the synced count is not
    negative, and success is true exactly when the list of errors is
    empty. *)
Theorem sync_counts_match_errors (env : Env) (w : World) (r : SyncResult)
    (w' : World) :
  health env = true ->
  sync env w = Some (r, w') ->
  failed_items r = Z.of_nat (List.length (errors r))
  /\ 0 <= synced_items r
  /\ (success r = true <-> errors r = []).
Proof.
  intros Hh. unfold sync, checkConnectivity, ret. rewrite Hh. cbn [negb].
  destruct (Z.of_nat (List.length (pendingItems (db w))) =? 0).
  - intros E. injection E as <- _. cbn. repeat split; lia.
  - destruct (make_batches _ _ _ _) as [batches|]; [|discriminate].
    pose proof (sync_batches_counts env batches
                  {| syncedItems := 0; failedItems := 0;
                     errors_so_far := [] |} w) as H.
    destruct (sync_batches env batches _ w) as [t w2].
    cbn [fst] in H. destruct H as [F S]; [split; cbn; lia|].
    intros E. injection E as <- _. cbn.
    split; [exact F | split; [exact S|]].
    rewrite Z.eqb_eq, F. destruct (errors_so_far t); cbn; split;
      intros H0; try reflexivity; try discriminate; lia.
Qed.

Lemma sync_counts_match_errors_witness :
  exists (r : SyncResult) (w' : World),
    sync Sample.timeout_env Sample.world = Some (r, w')
    /\ failed_items r = Z.of_nat (List.length (errors r))
    /\ 0 <= synced_items r
    /\ (success r = true <-> errors r = []).
Proof.
  destruct (sync Sample.timeout_env Sample.world) as [[r w']|] eqn:E.
  - exists r, w'. split; [reflexivity|].
    exact (sync_counts_match_errors Sample.timeout_env Sample.world r w'
             eq_refl E).
  - vm_compute in E. discriminate.
Defined.

(** ** What a run leaves alone *)

Lemma find_by_content (p : TaskRow -> bool) (l l' : list TaskRow) :
  (forall a b, content a = content b -> p a = p b) ->
  map content l' = map content l ->
  match find p l', find p l with
  | Some a', Some a => content a' = content a
  | None, None => True
  | _, _ => False
  end.
Proof.
  intros Hp. revert l'. induction l as [|a l IH]; intros [|a' l'] H;
    try discriminate; cbn; [exact I|].
  pose proof (f_equal (@List.hd _ (content a)) H) as Ha.
  pose proof (f_equal (@List.tl _) H) as Hl.
  cbn [List.hd List.tl map] in Ha, Hl.
  rewrite (Hp a' a Ha). destruct (p a); [exact Ha | apply IH, Hl].
Qed.

(** X2: a run adds no task row, removes none, and writes no identifier,
    title, description, completed flag, creation time, last-modified time
    or deletion flag; so [getTask] finds after the run the tasks it found
    before it, with these fields as they were. *)
Theorem sync_never_writes_content (env : Env) (w : World) (r : SyncResult)
    (w' : World) :
  sync env w = Some (r, w') ->
  map content (tasks (db w')) = map content (tasks (db w))
  /\ forall id : string,
       match fst (getTask id w'), fst (getTask id w) with
       | Some t', Some t =>
           t_id t' = t_id t /\ t_title t' = t_title t
           /\ t_description t' = t_description t
           /\ t_completed t' = t_completed t
           /\ t_created_at t' = t_created_at t
           /\ t_updated_at t' = t_updated_at t
           /\ t_is_deleted t' = t_is_deleted t
       | None, None => True
       | _, _ => False
       end.
Proof.
  intros H. pose proof (sync_content env w r w' H) as C.
  split; [exact C|]. intros id. cbn [getTask fst].
  pose proof (find_by_content
                (fun r => String.eqb (t_id (r_task r)) id
                          && negb (t_is_deleted (r_task r)))
                (tasks (db w)) (tasks (db w'))) as F.
  destruct (find _ (tasks (db w'))) as [a'|],
           (find _ (tasks (db w))) as [a|]; cbn [option_map];
    try (apply F; [|exact C]);
    try (intros x y Hxy; unfold content in Hxy; injection Hxy;
         intros; congruence).
  assert (Hc : content a' = content a).
  { apply F; [|exact C].
    intros x y Hxy; unfold content in Hxy; injection Hxy;
      intros; congruence. }
  unfold content in Hc. injection Hc. intros. repeat split; assumption.
Qed.

Lemma sync_never_writes_content_witness :
  exists (r : SyncResult) (w' : World),
    sync Sample.conflict_env Sample.world = Some (r, w')
    /\ map content (tasks (db w')) = map content (tasks (db Sample.world)).
Proof.
  destruct (sync Sample.conflict_env Sample.world) as [[r w']|] eqn:E.
  - exists r, w'. split; [reflexivity|].
    exact (proj1 (sync_never_writes_content Sample.conflict_env
                    Sample.world r w' E)).
  - vm_compute in E. discriminate.
Defined.

(** ** A batch size that is not a number *)

Lemma make_batches_NaN {A : Type} (x : A) (l : list A) :
  make_batches (List.length (x :: l)) (x :: l) (Num 0) NaN = Some [[]].
Proof.
  cbn [List.length make_batches num_lt num_add].
  destruct (Z.ltb_spec 0 (Z.of_nat (S (List.length l)))); [|lia].
  destruct (List.length l); reflexivity.
Qed.

(** X3: when [SYNC_BATCH_SIZE] does not parse to a number and something is
    pending, a run posts one request, with no item in it; if that request
    throws, the run reports success with nothing synced and nothing
    failed, and the database is what it was. *)
Theorem sync_unparsable_batch_size (env : Env) (w : World) :
  health env = true ->
  BATCH_SIZE env = NaN ->
  pendingItems (db w) <> [] ->
  exists (r : SyncResult) (w' : World),
    sync env w = Some (r, w')
    /\ map items (requests w') = map items (requests w) ++ [[]]
    /\ ((exists message : string,
           post env (List.length (requests w))
             {| items := []; client_timestamp := clock env (ticks w) |}
           = PostThrows message) ->
        r = {| success := true; synced_items := 0; failed_items := 0;
               errors := [] |}
        /\ db w' = db w).
Proof.
  intros Hh Hsz Hne. unfold sync, checkConnectivity, ret.
  rewrite Hh. cbn [negb].
  destruct (pendingItems (db w)) as [|x l] eqn:Ep; [contradiction|].
  destruct (Z.eqb_spec (Z.of_nat (List.length (x :: l))) 0) as [E0|_];
    [discriminate|].
  rewrite Hsz, make_batches_NaN.
  set (t0 := {| syncedItems := 0; failedItems := 0; errors_so_far := [] |}).
  destruct (sync_batches_run env [[]] t0 w) as [_ [_ R]].
  destruct (sync_batches env [[]] t0 w) as [t w2] eqn:Es.
  cbn [snd] in R. do 2 eexists. split; [reflexivity|].
  split; [exact R|]. intros [message Hm].
  cbn [sync_batches] in Es. unfold bind in Es.
  rewrite (sync_batch_throws env [] t0 w message Hm) in Es.
  cbn in Es. injection Es as <- <-. split; reflexivity.
Qed.

Lemma sync_unparsable_batch_size_witness :
  exists (r : SyncResult) (w' : World),
    sync {| health := true;
            post := fun _ _ => PostThrows "Network Error";
            clock := fun n => 5000 + Z.of_nat n;
            fresh_id := fun _ => "x";
            SYNC_BATCH_SIZE := Some NaN |} Sample.world = Some (r, w')
    /\ map items (requests w') = [[]]
    /\ success r = true
    /\ db w' = db Sample.world.
Proof.
  destruct (sync_unparsable_batch_size
              {| health := true;
                 post := fun _ _ => PostThrows "Network Error";
                 clock := fun n => 5000 + Z.of_nat n;
                 fresh_id := fun _ => "x";
                 SYNC_BATCH_SIZE := Some NaN |} Sample.world
              eq_refl eq_refl) as [r [w' [E [R H]]]].
  - discriminate.
  - exists r, w'. split; [exact E | split; [exact R|]].
    destruct H as [-> D]; [now exists "Network Error"|].
    split; [reflexivity | exact D].
Defined.

(** ** Failures on rows that are gone *)

Lemma update_where_twice {A : Type} (p1 p2 : A -> bool) (g : A -> A)
    (l : list A) :
  (forall r, g (g r) = g r) ->
  (forall r, p2 (g r) = p2 r) ->
  update_where p2 g (update_where p1 g l)
    = update_where (fun r => p1 r || p2 r) g l.
Proof.
  intros Hg Hp. unfold update_where. rewrite map_map. apply map_ext.
  intros r. destruct (p1 r); cbn [orb].
  - rewrite Hp, Hg. now destruct (p2 r).
  - reflexivity.
Qed.

Lemma update_where_none {A : Type} (p : A -> bool) (g : A -> A)
    (l : list A) :
  (forall r, In r l -> p r = false) -> update_where p g l = l.
Proof.
  intros H. unfold update_where. rewrite <- (map_id l) at 2.
  apply map_ext_in. intros r Hr. now rewrite (H r Hr).
Qed.

(** The table [tasks] after [handleSyncError]. *)
Lemma handleSyncError_tasks (item : SyncQueueItem) (message : string)
    (w : World) :
  tasks (db (snd (handleSyncError item message w))) =
    update_where (owns_last_retry [item])
      (exhausted (or_default message "Unknown error")) (tasks (db w)).
Proof.
  unfold handleSyncError. rewrite bind_run.
  cbn -[update_where delete_where]. unfold owns_last_retry. cbn [existsb].
  destruct (q_retry_count item + 1 >=? 3);
    cbn -[update_where delete_where].
  - unfold update_where. apply map_ext. intros r.
    now rewrite orb_false_r.
  - symmetry. apply update_where_none. reflexivity.
Qed.

Lemma fail_batch_tasks (env : Env) (message : string)
    (batch : list SyncQueueItem) :
  forall (t : Tally) (w : World),
    tasks (db (snd (fail_batch env batch message t w))) =
      update_where (owns_last_retry batch)
        (exhausted (or_default message "Unknown error")) (tasks (db w)).
Proof.
  induction batch as [|item rest IH]; intros t w.
  - cbn. symmetry. apply update_where_none. reflexivity.
  - cbn [fail_batch]. rewrite bind_run, bind_run, IH.
    cbn [new_Date snd db]. rewrite handleSyncError_tasks.
    rewrite update_where_twice; [| reflexivity | reflexivity].
    unfold update_where. apply map_ext. intros r.
    unfold owns_last_retry. cbn [existsb]. now rewrite orb_false_r.
Qed.

Lemma flat_map_keep {A : Type} (f : A -> list A) (l : list A) :
  (forall r, In r l -> f r = [r]) -> flat_map f l = l.
Proof.
  induction l as [|a l IH]; intros H; cbn; [reflexivity|].
  rewrite H by now left. cbn. f_equal. apply IH.
  intros r Hr. apply H. now right.
Qed.

Lemma fail_batch_no_rows (env : Env) (message : string)
    (batch : list SyncQueueItem) :
  forall (t : Tally) (w : World),
    (forall i r, In i batch -> In r (sync_queue (db w)) ->
                 q_id r <> q_id i) ->
    sync_queue (db (snd (fail_batch env batch message t w)))
      = sync_queue (db w).
Proof.
  induction batch as [|item rest IH]; intros t w H.
  - reflexivity.
  - cbn [fail_batch]. rewrite bind_run, bind_run.
    assert (Hq : sync_queue (db (snd (handleSyncError item message w)))
                 = sync_queue (db w)).
    { rewrite handleSyncError_queue. apply flat_map_keep. intros r Hr.
      destruct (String.eqb_spec (q_id r) (q_id item)) as [E|N];
        [|reflexivity].
      exfalso. exact (H item r (or_introl eq_refl) Hr E). }
    rewrite IH; cbn [new_Date snd db]; rewrite Hq; [reflexivity|].
    intros i r Hi Hr. apply (H i r (or_intror Hi) Hr).
Qed.

(** X4: when the submission of a batch throws and no row of the queue has
    the identifier of an item of the batch (an earlier success for the
    same task has deleted them), the queue is left as it is, yet every
    item is counted as failed and gets its error entry, and the tasks of
    the items that were at their last retry are marked as errors. *)
Theorem failure_on_deleted_rows (env : Env) (batch : list SyncQueueItem)
    (t : Tally) (w : World) (message : string) :
  post env (List.length (requests w))
    {| items := batch; client_timestamp := clock env (ticks w) |}
    = PostThrows message ->
  (forall i r, In i batch -> In r (sync_queue (db w)) -> q_id r <> q_id i) ->
  exists (t' : Tally) (w' : World) (es : list SyncError),
    sync_batch env batch t w = (t', w')
    /\ sync_queue (db w') = sync_queue (db w)
    /\ errors_so_far t' = errors_so_far t ++ es
    /\ map entry_of es
       = map (fun i => (q_task_id i, operation_text (q_operation i),
                        message)) batch
    /\ failedItems t' = failedItems t + Z.of_nat (List.length batch)
    /\ tasks (db w') =
         update_where (owns_last_retry batch)
           (exhausted (or_default message "Unknown error")) (tasks (db w)).
Proof.
  intros Hpost Hgone.
  rewrite (sync_batch_throws env batch t w message Hpost).
  match goal with
  | |- context [fail_batch env batch message t ?x] => set (w1 := x)
  end.
  destruct (fail_batch_tally env message batch t w1) as [es [E [Mp [F _]]]].
  pose proof (fail_batch_no_rows env message batch t w1 Hgone) as Q.
  pose proof (fail_batch_tasks env message batch t w1) as T.
  destruct (fail_batch env batch message t w1) as [t' w'].
  cbn [fst snd] in *. exists t', w', es.
  repeat match goal with |- _ /\ _ => split end; try assumption.
  reflexivity.
Qed.

Lemma failure_on_deleted_rows_witness :
  exists (t' : Tally) (w' : World),
    sync_batch Sample.timeout_env [Sample.queued_update]
      {| syncedItems := 1; failedItems := 0; errors_so_far := [] |}
      Sample.empty_world = (t', w')
    /\ sync_queue (db w') = []
    /\ failedItems t' = 1.
Proof.
  destruct (failure_on_deleted_rows Sample.timeout_env
              [Sample.queued_update]
              {| syncedItems := 1; failedItems := 0; errors_so_far := [] |}
              Sample.empty_world "timeout of 30000ms exceeded" eq_refl)
    as [t' [w' [es [E [Q [_ [_ [F _]]]]]]]].
  - intros i r _ [].
  - exists t', w'. split; [exact E | split; [exact Q | exact F]].
Defined.

(** ** The number and the size of the batches *)

Lemma make_batches_more {A : Type} (fuel : nat) (l : list A) (j : Z)
    (size : number) (b : list A) (bs : list (list A)) :
  make_batches fuel l (Num j) size = Some (b :: bs) ->
  j < Z.of_nat (List.length l).
Proof.
  destruct fuel; cbn [make_batches num_lt];
    destruct (Z.ltb_spec j (Z.of_nat (List.length l))) as [Hlt|Hge];
    intros E; try discriminate; assumption.
Qed.

Lemma make_batches_shape {A : Type} (size : Z) (l : list A) :
  1 <= size ->
  forall (fuel : nat) (i : Z) (bs : list (list A)),
    0 <= i ->
    make_batches fuel l (Num i) (Num size) = Some bs ->
    Forall (fun b => Z.of_nat (List.length b) = size) (removelast bs)
    /\ Z.of_nat (List.length bs)
       = (Z.max 0 (Z.of_nat (List.length l) - i) + size - 1) / size.
Proof.
  intros Hsize. induction fuel as [|fuel IH]; intros i bs Hi;
    cbn [make_batches num_lt num_add];
    destruct (Z.ltb_spec i (Z.of_nat (List.length l))) as [Hlt|Hge];
    intros E; try discriminate;
    try (injection E as <-; split; [constructor|]; cbn;
         rewrite Z.max_l by lia; symmetry; apply Z.div_small; lia).
  destruct (make_batches fuel l (Num (i + size)) (Num size))
    as [bs'|] eqn:E'; [|discriminate].
  cbn [option_map] in E. injection E as <-.
  destruct (IH (i + size) bs') as [F C]; [lia | exact E' |].
  split.
  - destruct bs' as [|b bs'']; [constructor|].
    pose proof (make_batches_more _ _ _ _ _ _ E') as Hmore.
    change (removelast (slice l (Num i) (Num (i + size)) :: b :: bs''))
      with (slice l (Num i) (Num (i + size)) :: removelast (b :: bs'')).
    constructor; [|exact F].
    rewrite slice_window by lia.
    rewrite length_firstn, length_skipn. lia.
  - cbn [List.length]. rewrite Nat2Z.inj_succ, C.
    rewrite (Z.max_r 0 (Z.of_nat (List.length l) - i)) by lia.
    destruct (Z.le_gt_cases 0 (Z.of_nat (List.length l) - (i + size)))
      as [Hle|Hgt].
    + rewrite Z.max_r by lia.
      replace (Z.of_nat (List.length l) - i + size - 1)
        with ((Z.of_nat (List.length l) - (i + size) + size - 1)
              + 1 * size) by lia.
      rewrite Z.div_add by lia. lia.
    + rewrite Z.max_l by lia.
      rewrite (Z.div_small (0 + size - 1)) by lia.
      apply (Z.div_unique _ _ (Z.succ 0)
        (Z.of_nat (List.length l) - i - 1)); lia.
Qed.

(** X5: with a batch size of at least 1, the requests a run posts carry
    the pending items in order, every request but the last carries exactly
    [size] items, and the run posts ceil(n / size) requests for n pending
    items. *)
Theorem sync_posts_full_batches (env : Env) (w : World) (size : Z)
    (r : SyncResult) (w' : World) :
  health env = true ->
  BATCH_SIZE env = Num size ->
  1 <= size ->
  sync env w = Some (r, w') ->
  let sent := skipn (List.length (requests w)) (map items (requests w')) in
  List.concat sent = pendingItems (db w)
  /\ Forall (fun b => Z.of_nat (List.length b) = size) (removelast sent)
  /\ Z.of_nat (List.length sent)
     = (Z.of_nat (List.length (pendingItems (db w))) + size - 1) / size.
Proof.
  intros Hh Hsz Hpos. unfold sync, checkConnectivity, ret.
  rewrite Hh. cbn [negb].
  destruct (Z.eqb_spec (Z.of_nat (List.length (pendingItems (db w)))) 0)
    as [He|Hne].
  - intros E. injection E as _ <-. cbn zeta.
    rewrite <- (length_map items), skipn_all. rewrite He.
    destruct (pendingItems (db w)); [|discriminate].
    split; [reflexivity | split; [constructor|]].
    cbn. symmetry. apply Z.div_small. lia.
  - rewrite Hsz.
    destruct (make_batches_positive size (pendingItems (db w)) Hpos
                (List.length (pendingItems (db w))) 0)
      as [bs [E [C _]]]; try lia.
    destruct (make_batches_shape size (pendingItems (db w)) Hpos
                (List.length (pendingItems (db w))) 0 bs) as [F N];
      [lia | exact E |].
    rewrite E.
    destruct (sync_batches_run env bs
                {| syncedItems := 0; failedItems := 0;
                   errors_so_far := [] |} w) as [_ [_ R]].
    destruct (sync_batches env bs _ w) as [t w2].
    intros E2. injection E2 as _ <-. cbn zeta. cbn [snd] in R.
    rewrite R, <- (length_map items), skipn_app, skipn_all, Nat.sub_diag.
    cbn [skipn app]. split; [exact C | split; [exact F|]].
    rewrite N, Z.sub_0_r, Z.max_r by lia. reflexivity.
Qed.

Lemma sync_posts_full_batches_witness :
  exists (r : SyncResult) (w' : World),
    sync Sample.timeout_env Sample.world = Some (r, w')
    /\ List.concat (map items (requests w'))
       = pendingItems (db Sample.world).
Proof.
  destruct (sync Sample.timeout_env Sample.world) as [[r w']|] eqn:E.
  - exists r, w'. split; [reflexivity|].
    apply (sync_posts_full_batches Sample.timeout_env Sample.world 1 r w'
             eq_refl eq_refl); [lia | exact E].
  - vm_compute in E. discriminate.
Defined.

(** ** Creating, updating, deleting and looking up tasks *)

Lemma find_update_where {A : Type} (p q : A -> bool) (g : A -> A)
    (l : list A) :
  (forall r, p (g r) = p r) ->
  find p (update_where q g l)
    = option_map (fun r => if q r then g r else r) (find p l).
Proof.
  intros H. induction l as [|a l IH]; cbn; [reflexivity|].
  destruct (q a) eqn:Eq.
  - rewrite H. destruct (p a); cbn; [now rewrite Eq | exact IH].
  - destruct (p a); cbn; [now rewrite Eq | exact IH].
Qed.

Lemma find_app_none {A : Type} (p : A -> bool) (l l' : list A) :
  find p l = None -> find p (l ++ l') = find p l'.
Proof.
  induction l as [|a l IH]; cbn; [reflexivity|].
  destruct (p a); [discriminate | exact IH].
Qed.

Lemma getTask_None (id : string) (w : World) :
  fst (getTask id w) = None ->
  find (fun r => String.eqb (t_id (r_task r)) id
                 && negb (t_is_deleted (r_task r))) (tasks (db w)) = None.
Proof.
  cbn [getTask fst]. destruct (find _ _); [discriminate | reflexivity].
Qed.

Lemma getTask_Some (id : string) (w : World) (task : Task) :
  fst (getTask id w) = Some task ->
  exists r : TaskRow,
    find (fun r => String.eqb (t_id (r_task r)) id
                   && negb (t_is_deleted (r_task r))) (tasks (db w))
      = Some r
    /\ r_task r = task /\ In r (tasks (db w))
    /\ t_id task = id /\ t_is_deleted task = false.
Proof.
  cbn [getTask fst]. destruct (find _ _) as [r|] eqn:E; [|discriminate].
  cbn. intros H. injection H as <-. exists r.
  destruct (find_some _ _ E) as [Hin Hp].
  apply andb_true_iff in Hp. destruct Hp as [Hid Hdel].
  apply String.eqb_eq in Hid. apply negb_true_iff in Hdel.
  repeat split; assumption.
Qed.

Lemma getTask_in_getAllTasks (id : string) (w : World) (task : Task) :
  fst (getTask id w) = Some task -> In task (fst (getAllTasks w)).
Proof.
  intros H. destruct (getTask_Some id w task H) as [r [_ [Hr [Hin [_ Hd]]]]].
  cbn [getAllTasks fst]. apply in_map_iff. exists r.
  split; [exact Hr|]. apply filter_In. split; [exact Hin|].
  now rewrite Hr, Hd.
Qed.

(** X6: when no task that is not deleted has the identifier [uuidv4]
    draws, [createTask] returns a task that [getTask] then finds under
    that identifier; whatever the identifier, the task is listed by
    [getAllTasks] and [getTasksNeedingSync], and a create item for it is
    among the pending items. *)
Theorem created_task_is_found (env : Env) (taskData : TaskData)
    (w : World) :
  fst (getTask (fresh_id env (draws w)) w) = None ->
  exists (task : Task) (w' : World) (item : SyncQueueItem),
    createTask env taskData w = (task, w')
    /\ t_id task = fresh_id env (draws w)
    /\ fst (getTask (t_id task) w') = Some task
    /\ In task (fst (getAllTasks w'))
    /\ In task (fst (getTasksNeedingSync w'))
    /\ In item (pendingItems (db w'))
    /\ q_task_id item = t_id task
    /\ q_operation item = Create.
Proof.
  intros Hnone. apply getTask_None in Hnone.
  do 3 eexists. split; [cbn; reflexivity|]. cbn [t_id].
  split; [reflexivity|]. split; [|split; [|split; [|split]]].
  - cbn. rewrite (find_app_none _ _ _ Hnone). cbn.
    rewrite String.eqb_refl. reflexivity.
  - cbn. apply in_map_iff. eexists (mkTaskRow _ None).
    split; [reflexivity | apply filter_In; split].
    + apply in_or_app. right. now left.
    + reflexivity.
  - cbn. apply in_map_iff. eexists (mkTaskRow _ None).
    split; [reflexivity | apply filter_In; split].
    + apply in_or_app. right. now left.
    + reflexivity.
  - unfold pendingItems.
    apply (Permutation_in _ (Permutation_sym (order_by_created_at_perm _))).
    apply filter_In. split.
    + cbn. apply in_or_app. right. now left.
    + reflexivity.
  - split; reflexivity.
Qed.

Lemma created_task_is_found_witness :
  exists (task : Task) (w' : World),
    createTask Sample.conflict_env
      {| td_title := "X"; td_description := None; td_completed := None |}
      Sample.world = (task, w')
    /\ fst (getTask "a" w') = Some task.
Proof.
  destruct (created_task_is_found Sample.conflict_env
              {| td_title := "X"; td_description := None;
                 td_completed := None |} Sample.world eq_refl)
    as [task [w' [item [E [Hid [G _]]]]]].
  exists task, w'. split; [exact E|]. rewrite <- G, Hid. reflexivity.
Defined.

(** X7: [updateTask] and [deleteTask] on an identifier that [getTask] does
    not find (no such task, or a task already deleted) return [null] and
    [false], change nothing and queue nothing. *)
Theorem mutation_of_missing_task (env : Env) (id : string) (w : World) :
  fst (getTask id w) = None ->
  (forall updates : PartialTask, updateTask env id updates w = (None, w))
  /\ deleteTask env id w = (false, w).
Proof.
  intros H. unfold updateTask, deleteTask, bind.
  cbn [getTask fst] in *.
  destruct (getTask id w) as [o w0] eqn:E. cbn [getTask] in E.
  injection E as <- <-. rewrite H. split; reflexivity.
Qed.

Lemma mutation_of_missing_task_witness :
  deleteTask Sample.conflict_env "B" Sample.world = (false, Sample.world).
Proof.
  apply (proj2 (mutation_of_missing_task Sample.conflict_env "B"
                  Sample.world eq_refl)).
Defined.

(** X8: after [deleteTask] on a task that [getTask] finds, [getTask] no
    longer finds it and [getAllTasks] no longer lists it, so a second
    [deleteTask] or an [updateTask] returns [false] or [null] and changes
    nothing; [getTasksNeedingSync] does list it, deleted, and a delete
    item for it is among the pending items. *)
Theorem deleted_task_is_hidden (env : Env) (id : string) (w : World)
    (task : Task) :
  fst (getTask id w) = Some task ->
  exists w' : World,
    deleteTask env id w = (true, w')
    /\ fst (getTask id w') = None
    /\ (forall t, In t (fst (getAllTasks w')) -> t_id t <> id)
    /\ (forall (env' : Env) (updates : PartialTask),
          deleteTask env' id w' = (false, w')
          /\ updateTask env' id updates w' = (None, w'))
    /\ (exists t, In t (fst (getTasksNeedingSync w'))
                  /\ t_id t = id /\ t_is_deleted t = true
                  /\ t_title t = t_title task)
    /\ (exists item, In item (pendingItems (db w'))
                     /\ q_task_id item = id /\ q_operation item = Delete).
Proof.
  intros H. destruct (getTask_Some id w task H) as [r [Hf [Hr [Hin [Hid _]]]]].
  cbn [getTask fst] in H.
  unfold deleteTask, bind, getTask. rewrite Hf. cbn.
  eexists. split; [reflexivity|]. cbn.
  assert (Hnone :
    find (fun r0 => String.eqb (t_id (r_task r0)) id
                    && negb (t_is_deleted (r_task r0)))
      (update_where (fun r0 => String.eqb (t_id (r_task r0)) id)
         (fun r0 =>
            {| r_task :=
                 with_sync_state Pending (t_last_synced_at (r_task r0))
                   (t_server_id (r_task r0))
                   (with_content (t_title (r_task r0))
                      (t_description (r_task r0))
                      (t_completed (r_task r0)) (clock env (ticks w))
                      (with_is_deleted true (r_task r0)));
               r_error_message := r_error_message r0 |})
         (tasks (db w))) = None).
  { destruct (find _ (update_where _ _ _)) as [x|] eqn:E; [|reflexivity].
    exfalso. destruct (find_some _ _ E) as [Hx Hp].
    unfold update_where in Hx. apply in_map_iff in Hx.
    destruct Hx as [x0 [Ex _]].
    destruct (String.eqb (t_id (r_task x0)) id) eqn:E0; subst x.
    - cbn in Hp. rewrite andb_false_r in Hp. discriminate.
    - rewrite E0 in Hp. discriminate. }
  split; [now rewrite Hnone|]. split; [|split; [|split]].
  - intros t Ht Et. apply in_map_iff in Ht. destruct Ht as [x [Ex Hx]].
    apply filter_In in Hx. destruct Hx as [Hx Hdel].
    assert (Hp : (String.eqb (t_id (r_task x)) id
                  && negb (t_is_deleted (r_task x))) = true).
    { rewrite <- Ex in Et. rewrite Et, String.eqb_refl. exact Hdel. }
    pose proof (find_none _ _ Hnone x Hx) as Hn. cbn beta in Hn.
    rewrite Hp in Hn. discriminate.
  - intros env' updates. unfold deleteTask, updateTask, bind, getTask.
    cbn [db tasks]. rewrite Hnone. split; reflexivity.
  - eexists. split; [|split; [|split]].
    + apply in_map_iff. eexists. split; [reflexivity|].
      apply filter_In. split.
      * unfold update_where. apply in_map_iff. exists r.
        split; [reflexivity | exact Hin].
      * rewrite <- Hid, <- Hr, String.eqb_refl. reflexivity.
    + rewrite <- Hid, <- Hr, String.eqb_refl. cbn. reflexivity.
    + rewrite <- Hid, <- Hr, String.eqb_refl. reflexivity.
    + rewrite <- Hid, <- Hr, String.eqb_refl. reflexivity.
  - eexists. split.
    + unfold pendingItems.
      apply (Permutation_in _
               (Permutation_sym (order_by_created_at_perm _))).
      apply filter_In. split.
      * cbn. apply in_or_app. right. now left.
      * reflexivity.
    + split; reflexivity.
Qed.

Lemma deleted_task_is_hidden_witness :
  exists w' : World,
    deleteTask Sample.conflict_env "A" Sample.world = (true, w')
    /\ fst (getTask "A" w') = None.
Proof.
  destruct (deleted_task_is_hidden Sample.conflict_env "A" Sample.world
              Sample.local_task eq_refl) as [w' [E [G _]]].
  exists w'. split; [exact E | exact G].
Defined.

(** X9: when [updates] sets none of [id], [created_at], [is_deleted],
    [server_id] and [last_synced_at] (the route for updates passes title,
    description and completed flag only), the task [updateTask] returns is
    the task [getTask] finds afterwards, and the payload of the queued
    item is a copy of it. *)
Theorem updated_task_is_found (env : Env) (id : string)
    (updates : PartialTask) (w : World) (existing : Task) :
  fst (getTask id w) = Some existing ->
  p_id updates = None ->
  p_created_at updates = None ->
  p_is_deleted updates = None ->
  p_server_id updates = None ->
  p_last_synced_at updates = None ->
  exists (updated : Task) (w' : World) (item : SyncQueueItem),
    updateTask env id updates w = (Some updated, w')
    /\ fst (getTask id w') = Some updated
    /\ In updated (fst (getAllTasks w'))
    /\ sync_queue (db w') = sync_queue (db w) ++ [item]
    /\ q_data item = partial_of_task updated.
Proof.
  intros H H1 H2 H3 H4 H5.
  destruct (getTask_Some id w existing H) as [r [Hf [Hr [Hin [Hid Hdel]]]]].
  assert (Heq : String.eqb (t_id (r_task r)) id = true)
    by (rewrite Hr, Hid; apply String.eqb_refl).
  unfold updateTask, bind, getTask. rewrite Hf. cbn.
  do 3 eexists. split; [reflexivity|].
  match goal with
  | |- ?G /\ _ => assert (Hg : G)
  end.
  { cbn. rewrite find_update_where by reflexivity.
    rewrite Hf. cbn. rewrite Heq, H1, H2, H3, H4, H5. reflexivity. }
  split; [exact Hg | split; [|split; reflexivity]].
  apply getTask_in_getAllTasks with (id := id). exact Hg.
Qed.

Lemma updated_task_is_found_witness :
  exists (updated : Task) (w' : World),
    updateTask Sample.conflict_env "A"
      {| p_id := None; p_title := Some "Renamed"; p_description := None;
         p_completed := Some true; p_created_at := None;
         p_updated_at := None; p_is_deleted := None;
         p_sync_status := None; p_server_id := None;
         p_last_synced_at := None |} Sample.world = (Some updated, w')
    /\ fst (getTask "A" w') = Some updated
    /\ t_title updated = "Renamed".
Proof.
  destruct (updated_task_is_found Sample.conflict_env "A"
              {| p_id := None; p_title := Some "Renamed";
                 p_description := None; p_completed := Some true;
                 p_created_at := None; p_updated_at := None;
                 p_is_deleted := None; p_sync_status := None;
                 p_server_id := None; p_last_synced_at := None |}
              Sample.world Sample.local_task
              eq_refl eq_refl eq_refl eq_refl eq_refl eq_refl)
    as [updated [w' [item [E [G _]]]]].
  exists updated, w'. split; [exact E | split; [exact G|]].
  vm_compute in E. injection E as <- _. reflexivity.
Defined.

(** ** How a run changes the queue *)

Lemma evolves_refl (q : list SyncQueueItem) : evolves q q.
Proof. induction q; constructor; assumption. Qed.

Lemma evolves_filter (p : SyncQueueItem -> bool)
    (q0 q : list SyncQueueItem) :
  evolves q0 q -> evolves q0 (filter p q).
Proof.
  induction 1 as [|r q q' H IH|r m q q' H IH|r q q' H IH]; cbn.
  - constructor.
  - destruct (p r); constructor; exact IH.
  - destruct (p _); constructor; exact IH.
  - constructor. exact IH.
Qed.

Lemma evolves_handleSyncError (b : SyncQueueItem) (message : string)
    (q0 : list SyncQueueItem) (w : World) :
  (forall r, In r q0 -> q_id r = q_id b -> r = b) ->
  evolves q0 (sync_queue (db w)) ->
  evolves q0 (sync_queue (db (snd (handleSyncError b message w)))).
Proof.
  rewrite handleSyncError_queue.
  match goal with
  | |- _ -> _ -> evolves _ (flat_map ?g _) => set (f := g)
  end.
  intros Hb H.
  induction H as [|r q q' H IH|r m q q' H IH|r q q' H IH]; cbn [flat_map].
  - constructor.
  - unfold f at 1.
    destruct (String.eqb_spec (q_id r) (q_id b)) as [E|N].
    + rewrite <- (Hb r (or_introl eq_refl) E).
      destruct (q_retry_count r + 1 >=? 3); cbn [app].
      * constructor. apply IH. intros x Hx. apply Hb. now right.
      * constructor. apply IH. intros x Hx. apply Hb. now right.
    + cbn [app]. constructor. apply IH. intros x Hx. apply Hb. now right.
  - unfold f at 1. cbn [with_retry q_id].
    destruct (String.eqb_spec (q_id r) (q_id b)) as [E|N].
    + rewrite <- (Hb r (or_introl eq_refl) E).
      destruct (q_retry_count r + 1 >=? 3); cbn [app].
      * constructor. apply IH. intros x Hx. apply Hb. now right.
      * apply (evolves_bump r
                 (Some (or_default message "Unknown error")) q).
        apply IH. intros x Hx. apply Hb. now right.
    + cbn [app]. constructor. apply IH. intros x Hx. apply Hb. now right.
  - constructor. apply IH. intros x Hx. apply Hb. now right.
Qed.

Lemma evolves_updateSyncStatus (env : Env) (taskId : string)
    (st : SyncStatus) (serverData : option ResolvedData)
    (q0 : list SyncQueueItem) (w : World) :
  evolves q0 (sync_queue (db w)) ->
  evolves q0
    (sync_queue (db (snd (updateSyncStatus env taskId st serverData w)))).
Proof.
  intros H. destruct st; cbn; try exact H.
  unfold delete_where. now apply evolves_filter.
Qed.

Lemma evolves_fail_batch (env : Env) (message : string)
    (q0 batch : list SyncQueueItem) :
  NoDup (map q_id q0) -> incl batch q0 ->
  forall (t : Tally) (w : World),
    evolves q0 (sync_queue (db w)) ->
    evolves q0 (sync_queue (db (snd (fail_batch env batch message t w)))).
Proof.
  intros Hnd. induction batch as [|item rest IH]; intros Hincl t w H.
  - exact H.
  - cbn [fail_batch]. rewrite bind_run, bind_run.
    apply IH; [intros x Hx; apply Hincl; now right|].
    cbn [new_Date snd db]. apply evolves_handleSyncError; [|exact H].
    intros r Hr E.
    exact (same_id_same_row q0 r item Hnd Hr
             (Hincl item (or_introl eq_refl)) E).
Qed.

Lemma evolves_apply_verdicts (env : Env) (q0 batch : list SyncQueueItem)
    (processed : list ProcessedItem) :
  NoDup (map q_id q0) -> incl batch q0 ->
  forall (t : Tally) (w : World),
    evolves q0 (sync_queue (db w)) ->
    evolves q0
      (sync_queue (db (snd (apply_verdicts env batch processed t w)))).
Proof.
  intros Hnd Hincl.
  induction processed as [|item rest IH]; intros t w H.
  - exact H.
  - cbn [apply_verdicts].
    assert (Hfail :
      evolves q0 (sync_queue (db (snd
        (match find (fun b => String.eqb (q_task_id b) (client_id item))
                 batch with
         | None => ret (t, Some undefined_item_message)
         | Some b =>
             handleSyncError b
               (opt_or_default (error item) "Sync failed") ;;
             now <- new_Date env ;;
             apply_verdicts env batch rest
               (count_failed
                  {| e_task_id := client_id item;
                     e_operation := operation_text (q_operation b);
                     e_error := opt_or_default (error item) "Sync failed";
                     e_timestamp := now |} t)
         end w))))).
    { destruct (find _ batch) as [b|] eqn:Ef; [|exact H].
      rewrite bind_run, bind_run. apply IH. cbn [new_Date snd db].
      apply evolves_handleSyncError; [|exact H].
      intros r Hr E. destruct (find_some _ _ Ef) as [Hb _].
      exact (same_id_same_row q0 r b Hnd Hr (Hincl b Hb) E). }
    destruct (status item); try exact Hfail.
    rewrite bind_run. apply IH. now apply evolves_updateSyncStatus.
Qed.

Lemma evolves_sync_batch (env : Env) (q0 batch : list SyncQueueItem) :
  NoDup (map q_id q0) -> incl batch q0 ->
  forall (t : Tally) (w : World),
    evolves q0 (sync_queue (db w)) ->
    evolves q0 (sync_queue (db (snd (sync_batch env batch t w)))).
Proof.
  intros Hnd Hincl t w H. unfold sync_batch. rewrite bind_run.
  destruct (processBatch_run env batch w) as [D _].
  assert (H1 : evolves q0
                 (sync_queue (db (snd (processBatch env batch w)))))
    by now rewrite D.
  destruct (fst (processBatch env batch w)) as [message|processed].
  - now apply evolves_fail_batch.
  - rewrite bind_run.
    pose proof (evolves_apply_verdicts env q0 batch processed Hnd Hincl t
                  _ H1) as H2.
    destruct (fst (apply_verdicts env batch processed t _))
      as [t' [message|]].
    + now apply evolves_fail_batch.
    + exact H2.
Qed.

Lemma evolves_sync_batches (env : Env) (q0 : list SyncQueueItem)
    (batches : list (list SyncQueueItem)) :
  NoDup (map q_id q0) ->
  (forall b, In b batches -> incl b q0) ->
  forall (t : Tally) (w : World),
    evolves q0 (sync_queue (db w)) ->
    evolves q0 (sync_queue (db (snd (sync_batches env batches t w)))).
Proof.
  intros Hnd. induction batches as [|batch rest IH]; intros Hb t w H.
  - exact H.
  - cbn [sync_batches]. rewrite bind_run.
    apply IH; [intros b Hin; apply Hb; now right|].
    apply evolves_sync_batch; [exact Hnd | apply Hb; now left | exact H].
Qed.

Lemma slice_incl {A : Type} (l : list A) (a b : number) :
  incl (slice l a b) l.
Proof.
  intros x Hx. unfold slice in Hx.
  match type of Hx with
  | In x (firstn ?n (skipn ?k l)) =>
      rewrite <- (firstn_skipn k l); apply in_or_app; right;
      rewrite <- (firstn_skipn n (skipn k l)); apply in_or_app; left;
      exact Hx
  end.
Qed.

Lemma make_batches_incl {A : Type} (l : list A) (size : number) :
  forall (fuel : nat) (i : number) (bs : list (list A)),
    make_batches fuel l i size = Some bs ->
    forall b, In b bs -> incl b l.
Proof.
  induction fuel as [|fuel IH]; intros i bs; cbn [make_batches];
    destruct (num_lt i _); intros E; try discriminate;
    try (injection E as <-; intros b []).
  destruct (make_batches fuel l (num_add i size) size) as [bs'|] eqn:E';
    [|discriminate].
  cbn [option_map] in E. injection E as <-. intros b [<-|Hb].
  - apply slice_incl.
  - exact (IH _ _ E' b Hb).
Qed.

Lemma pendingItems_incl (d : Database) :
  incl (pendingItems d) (sync_queue d).
Proof.
  intros x Hx. unfold pendingItems in Hx.
  apply (Permutation_in _ (order_by_created_at_perm _)) in Hx.
  apply filter_In in Hx. apply Hx.
Qed.

Lemma evolves_facts (q0 q : list SyncQueueItem) :
  evolves q0 q ->
  (List.length q <= List.length q0)%nat
  /\ (forall r', In r' q ->
        exists r, In r q0
          /\ q_id r' = q_id r /\ q_task_id r' = q_task_id r
          /\ q_operation r' = q_operation r /\ q_data r' = q_data r
          /\ q_created_at r' = q_created_at r
          /\ (r' = r \/ q_retry_count r' = q_retry_count r + 1))
  /\ (NoDup (map q_id q0) -> NoDup (map q_id q)).
Proof.
  induction 1 as [|r q q' H [L [P N]]|r m q q' H [L [P N]]
                 |r q q' H [L [P N]]].
  - repeat split; [lia | intros r' [] | auto].
  - split; [cbn; lia | split].
    + intros r' [<-|Hr'].
      * exists r. repeat split; try reflexivity; [now left | now left].
      * destruct (P r' Hr') as [x [Hx Hrest]]. exists x.
        split; [now right | exact Hrest].
    + cbn. intros Hnd. inversion Hnd as [|x l Hni Hnd']; subst.
      constructor; [|now apply N].
      intros Hin. apply Hni. apply in_map_iff in Hin.
      destruct Hin as [y [Ey Hy]]. destruct (P y Hy) as [x [Hx [Ex _]]].
      rewrite <- Ey, Ex. now apply in_map.
  - split; [cbn; lia | split].
    + intros r' [<-|Hr'].
      * exists r. repeat split; try reflexivity; [now left | now right].
      * destruct (P r' Hr') as [x [Hx Hrest]]. exists x.
        split; [now right | exact Hrest].
    + cbn. intros Hnd. inversion Hnd as [|x l Hni Hnd']; subst.
      constructor; [|now apply N].
      intros Hin. apply Hni. apply in_map_iff in Hin.
      destruct Hin as [y [Ey Hy]]. destruct (P y Hy) as [x [Hx [Ex _]]].
      rewrite <- Ey, Ex. now apply in_map.
  - split; [cbn; lia | split].
    + intros r' Hr'. destruct (P r' Hr') as [x [Hx Hrest]]. exists x.
      split; [now right | exact Hrest].
    + cbn. intros Hnd. inversion Hnd; subst. now apply N.
Qed.

Lemma sync_evolves (env : Env) (w : World) (r : SyncResult) (w' : World) :
  NoDup (map q_id (sync_queue (db w))) ->
  sync env w = Some (r, w') ->
  evolves (sync_queue (db w)) (sync_queue (db w')).
Proof.
  intros Hnd. unfold sync, checkConnectivity, ret.
  destruct (health env); cbn [negb].
  - destruct (Z.of_nat (List.length (pendingItems (db w))) =? 0).
    + intros E. injection E as _ <-. apply evolves_refl.
    + destruct (make_batches _ _ _ _) as [batches|] eqn:Eb; [|discriminate].
      pose proof (evolves_sync_batches env (sync_queue (db w)) batches Hnd)
        as H.
      destruct (sync_batches env batches _ w) as [t w2] eqn:Es.
      intros E. injection E as _ <-.
      match type of Es with
      | sync_batches env batches ?t0 w = _ =>
          specialize (H (fun b Hb x Hx =>
                           pendingItems_incl (db w) x
                             (make_batches_incl _ _ _ _ _ Eb b Hb x Hx))
                        t0 w (evolves_refl _))
      end.
      now rewrite Es in H.
  - cbn. intros E. injection E as _ <-. apply evolves_refl.
Qed.

(** X10: when the rows of the queue have distinct identifiers, a run adds
    no row and rewrites no identifier, task, operation, payload or enqueue
    time; every row left after the run is a row from before it, untouched
    or with its retry counter raised by exactly one, and the identifiers
    are still distinct. *)
Theorem sync_queue_only_shrinks_or_bumps (env : Env) (w : World)
    (r : SyncResult) (w' : World) :
  NoDup (map q_id (sync_queue (db w))) ->
  sync env w = Some (r, w') ->
  (List.length (sync_queue (db w')) <= List.length (sync_queue (db w)))%nat
  /\ NoDup (map q_id (sync_queue (db w')))
  /\ forall i', In i' (sync_queue (db w')) ->
       exists i, In i (sync_queue (db w))
         /\ q_id i' = q_id i /\ q_task_id i' = q_task_id i
         /\ q_operation i' = q_operation i /\ q_data i' = q_data i
         /\ q_created_at i' = q_created_at i
         /\ (i' = i \/ q_retry_count i' = q_retry_count i + 1).
Proof.
  intros Hnd Hs.
  destruct (evolves_facts _ _ (sync_evolves env w r w' Hnd Hs))
    as [L [P N]].
  split; [exact L | split; [exact (N Hnd) | exact P]].
Qed.

Lemma sync_queue_only_shrinks_or_bumps_witness :
  exists (r : SyncResult) (w' : World),
    sync Sample.timeout_env Sample.world = Some (r, w')
    /\ (List.length (sync_queue (db w')) <= 1)%nat.
Proof.
  destruct (sync Sample.timeout_env Sample.world) as [[r w']|] eqn:E.
  - exists r, w'. split; [reflexivity|].
    apply (sync_queue_only_shrinks_or_bumps Sample.timeout_env Sample.world
             r w'); [|exact E].
    cbn. repeat constructor. intros [].
  - vm_compute in E. discriminate.
Defined.

(** ** A run with the transport down *)

Lemma NoDup_app_disjoint {A : Type} (l1 l2 : list A) :
  NoDup (l1 ++ l2) -> forall x, In x l1 -> ~ In x l2.
Proof.
  induction l1 as [|a l1 IH]; intros H x Hx; [contradiction|].
  cbn in H. inversion H as [|y l Hni Hnd]; subst.
  destruct Hx as [->|Hx].
  - intros H2. apply Hni, in_or_app. now right.
  - now apply IH.
Qed.

Lemma filter_keeps_ids_distinct (keep : SyncQueueItem -> bool)
    (q : list SyncQueueItem) :
  NoDup (map q_id q) -> NoDup (map q_id (filter keep q)).
Proof.
  intros Hq. induction q as [|a q IH]; cbn; [constructor|].
  cbn in Hq. inversion Hq as [|x l0 Hni Hnd]; subst.
  destruct (keep a); cbn; [|now apply IH].
  constructor; [|now apply IH].
  intros Hin. apply Hni. apply in_map_iff in Hin.
  destruct Hin as [y [Ey Hy]]. apply filter_In in Hy.
  rewrite <- Ey. apply in_map, Hy.
Qed.

Lemma flat_map_ext_rows {A B : Type} (f g : A -> list B) (l : list A) :
  (forall x, In x l -> f x = g x) -> flat_map f l = flat_map g l.
Proof.
  induction l as [|a l IH]; intros H; cbn; [reflexivity|].
  rewrite H by now left. f_equal. apply IH.
  intros x Hx. apply H. now right.
Qed.

Lemma record_failures_nil (message : string) (q : list SyncQueueItem) :
  record_failures [] message q = q.
Proof. unfold record_failures. now apply flat_map_keep. Qed.

Lemma record_failures_compose (ids1 ids2 : list string) (message : string)
    (q : list SyncQueueItem) :
  (forall id, In id ids1 -> ~ In id ids2) ->
  record_failures ids2 message (record_failures ids1 message q)
    = record_failures (ids1 ++ ids2) message q.
Proof.
  intros Hdis. unfold record_failures. apply flat_map_compose_in.
  intros r _. rewrite existsb_app.
  destruct (existsb (String.eqb (q_id r)) ids1) eqn:E1; cbn [orb].
  - unfold recordFailure.
    destruct (q_retry_count r + 1 >=? 3) eqn:E3; [reflexivity|].
    cbn [flat_map with_retry q_id].
    assert (E2 : existsb (String.eqb (q_id r)) ids2 = false).
    { destruct (existsb _ ids2) eqn:E2; [|reflexivity].
      exfalso. apply existsb_exists in E1, E2.
      destruct E1 as [x [Hx Ex]], E2 as [y [Hy Ey]].
      apply String.eqb_eq in Ex, Ey. subst x y.
      exact (Hdis _ Hx Hy). }
    rewrite E2. reflexivity.
  - cbn [flat_map]. now rewrite app_nil_r.
Qed.

Lemma snapshot_after_failures (ids : list string) (message : string)
    (c q : list SyncQueueItem) :
  (forall id, In id ids -> ~ In id (map q_id c)) ->
  snapshot_of c q ->
  snapshot_of c (record_failures ids message q).
Proof.
  intros Hdis Hsnap item r' Hi Hr' E.
  unfold record_failures in Hr'. apply in_flat_map in Hr'.
  destruct Hr' as [r [Hr Hin]].
  destruct (existsb (String.eqb (q_id r)) ids) eqn:Ex.
  - exfalso. apply existsb_exists in Ex. destruct Ex as [x [Hx Ex]].
    apply String.eqb_eq in Ex. subst x.
    unfold recordFailure in Hin.
    destruct (q_retry_count r + 1 >=? 3); [contradiction|].
    destruct Hin as [<-|[]]. cbn in E.
    apply (Hdis _ Hx). rewrite E. now apply in_map.
  - destruct Hin as [<-|[]]. exact (Hsnap item r Hi Hr E).
Qed.

Lemma owns_last_retry_app (l1 l2 : list SyncQueueItem) (r : TaskRow) :
  owns_last_retry (l1 ++ l2) r
    = owns_last_retry l1 r || owns_last_retry l2 r.
Proof. unfold owns_last_retry. apply existsb_app. Qed.

Lemma sync_batches_down (env : Env) (message : string)
    (batches : list (list SyncQueueItem)) :
  (forall n request, post env n request = PostThrows message) ->
  forall (t : Tally) (w : World),
    NoDup (map q_id (List.concat batches)) ->
    snapshot_of (List.concat batches) (sync_queue (db w)) ->
    sync_queue (db (snd (sync_batches env batches t w)))
      = record_failures (map q_id (List.concat batches))
          (or_default message "Unknown error") (sync_queue (db w))
    /\ tasks (db (snd (sync_batches env batches t w)))
       = update_where (owns_last_retry (List.concat batches))
           (exhausted (or_default message "Unknown error"))
           (tasks (db w))
    /\ exists es : list SyncError,
         errors_so_far (fst (sync_batches env batches t w))
           = errors_so_far t ++ es
         /\ map entry_of es
            = map (fun i => (q_task_id i, operation_text (q_operation i),
                             message)) (List.concat batches)
         /\ failedItems (fst (sync_batches env batches t w))
            = failedItems t
              + Z.of_nat (List.length (List.concat batches))
         /\ syncedItems (fst (sync_batches env batches t w))
            = syncedItems t.
Proof.
  intros Hdown. induction batches as [|b rest IH]; intros t w Hnd Hsnap.
  - cbn [sync_batches List.concat map List.length]. unfold ret.
    cbn [fst snd]. split; [|split].
    + symmetry. apply record_failures_nil.
    + symmetry. apply update_where_none. reflexivity.
    + exists []. rewrite app_nil_r. repeat split. cbn. lia.
  - cbn [sync_batches List.concat] in *. rewrite bind_run.
    rewrite (sync_batch_throws env b t w message (Hdown _ _)).
    match goal with
    | |- context [fail_batch env b message t ?x] => set (w1 := x)
    end.
    rewrite map_app in Hnd.
    pose proof (NoDup_app_remove_l _ _ Hnd) as Hnd_rest.
    pose proof (NoDup_app_remove_r _ _ Hnd) as Hnd_b.
    pose proof (NoDup_app_disjoint _ _ Hnd) as Hdis.
    assert (Hsnap_b : snapshot_of b (sync_queue (db w1))).
    { intros item r Hi Hr E.
      exact (Hsnap item r (in_or_app _ _ _ (or_introl Hi)) Hr E). }
    pose proof (fail_batch_queue env message b t w1 Hnd_b Hsnap_b) as Q1.
    pose proof (fail_batch_tasks env message b t w1) as T1.
    destruct (fail_batch_tally env message b t w1)
      as [es1 [E1 [M1 [F1 S1]]]].
    fold (record_failures (map q_id b)
            (or_default message "Unknown error") (sync_queue (db w1)))
      in Q1.
    change (sync_queue (db w1)) with (sync_queue (db w)) in Q1.
    change (tasks (db w1)) with (tasks (db w)) in T1.
    destruct (IH (fst (fail_batch env b message t w1))
                 (snd (fail_batch env b message t w1)) Hnd_rest)
      as [Q2 [T2 [es2 [E2 [M2 [F2 S2]]]]]].
    { rewrite Q1. apply snapshot_after_failures; [exact Hdis|].
      intros item r Hi Hr E.
      exact (Hsnap item r (in_or_app _ _ _ (or_intror Hi)) Hr E). }
    split; [|split].
    + rewrite Q2, Q1, map_app. apply record_failures_compose. exact Hdis.
    + rewrite T2, T1.
      rewrite update_where_twice; [| reflexivity | reflexivity].
      unfold update_where. apply map_ext. intros r.
      now rewrite owns_last_retry_app.
    + exists (es1 ++ es2).
      change (map (fun e => (e_task_id e, e_operation e, e_error e)) es1)
        with (map entry_of es1) in M1.
      rewrite E2, E1, F2, F1, S2, S1, <- app_assoc, !map_app, M1, M2,
        length_app.
      repeat split. lia.
Qed.

Lemma pending_ids_NoDup (d : Database) :
  NoDup (map q_id (sync_queue d)) -> NoDup (map q_id (pendingItems d)).
Proof.
  intros H. unfold pendingItems.
  eapply Permutation_NoDup.
  - apply Permutation_map. symmetry. apply order_by_created_at_perm.
  - now apply filter_keeps_ids_distinct.
Qed.

Lemma pending_row_criterion (d : Database) (r : SyncQueueItem) :
  NoDup (map q_id (sync_queue d)) ->
  In r (sync_queue d) ->
  existsb (String.eqb (q_id r)) (map q_id (pendingItems d))
    = (q_retry_count r <? 3).
Proof.
  intros Hnd Hr.
  destruct (q_retry_count r <? 3) eqn:E.
  - apply existsb_exists. exists (q_id r).
    split; [|apply String.eqb_refl]. apply in_map. unfold pendingItems.
    apply (Permutation_in _ (Permutation_sym (order_by_created_at_perm _))).
    apply filter_In. split; assumption.
  - destruct (existsb _ _) eqn:Ex; [|reflexivity].
    apply existsb_exists in Ex. destruct Ex as [x [Hx Ex]].
    apply String.eqb_eq in Ex. subst x. apply in_map_iff in Hx.
    destruct Hx as [p [Ep Hp]].
    pose proof (pendingItems_incl d p Hp) as Hpq.
    rewrite (same_id_same_row _ p r Hnd Hpq Hr Ep) in Hp.
    unfold pendingItems in Hp.
    apply (Permutation_in _ (order_by_created_at_perm _)) in Hp.
    apply filter_In in Hp. destruct Hp as [_ Hp]. congruence.
Qed.

(** One run with the transport down, on a queue with distinct
    identifiers. *)
Lemma sync_down (env : Env) (message : string) (size : Z) (w : World) :
  transport_down env message size ->
  NoDup (map q_id (sync_queue (db w))) ->
  exists (r : SyncResult) (w' : World),
    sync env w = Some (r, w')
    /\ sync_queue (db w') =
         flat_map
           (fun i =>
              if q_retry_count i <? 3
              then recordFailure (or_default message "Unknown error") i
              else [i])
           (sync_queue (db w))
    /\ tasks (db w') =
         update_where (owns_last_retry (pendingItems (db w)))
           (exhausted (or_default message "Unknown error")) (tasks (db w))
    /\ map entry_of (errors r)
       = map (fun i => (q_task_id i, operation_text (q_operation i),
                        message)) (pendingItems (db w))
    /\ failed_items r = Z.of_nat (List.length (pendingItems (db w)))
    /\ synced_items r = 0
    /\ success r = (failed_items r =? 0).
Proof.
  intros [Hh [Hsz [Hpos Hdown]]] Hnd.
  assert (Hq : record_failures (map q_id (pendingItems (db w)))
                 (or_default message "Unknown error") (sync_queue (db w))
               = flat_map
                   (fun i =>
                      if q_retry_count i <? 3
                      then recordFailure
                             (or_default message "Unknown error") i
                      else [i])
                   (sync_queue (db w))).
  { unfold record_failures. apply flat_map_ext_rows. intros x Hx.
    now rewrite (pending_row_criterion (db w) x Hnd Hx). }
  unfold sync, checkConnectivity, ret. rewrite Hh. cbn [negb].
  destruct (Z.eqb_spec (Z.of_nat (List.length (pendingItems (db w)))) 0)
    as [He|Hne].
  - do 2 eexists. split; [reflexivity|].
    destruct (pendingItems (db w)) eqn:Ep; [|discriminate].
    rewrite <- Hq, record_failures_nil. cbn.
    repeat split. symmetry. apply update_where_none. reflexivity.
  - rewrite Hsz.
    destruct (make_batches_positive size (pendingItems (db w)) Hpos
                (List.length (pendingItems (db w))) 0)
      as [bs [E [C _]]]; try lia.
    rewrite E. cbn [skipn Z.to_nat] in C.
    set (t0 := {| syncedItems := 0; failedItems := 0;
                  errors_so_far := [] |}).
    destruct (sync_batches_down env message bs Hdown t0 w)
      as [Q [T [es [Ee [M [F S]]]]]].
    { rewrite C. now apply pending_ids_NoDup. }
    { rewrite C. apply snapshot_of_rows; [exact Hnd|].
      apply pendingItems_incl. }
    destruct (sync_batches env bs t0 w) as [t w2].
    cbn [fst snd] in *. do 2 eexists. split; [reflexivity|].
    cbn [success synced_items failed_items errors].
    rewrite C in *. rewrite Q, Hq, T, Ee, F, S. cbn [app].
    repeat split; assumption.
Qed.

(** X11: with the transport down and distinct row identifiers, a run
    records one failure on every row whose retry counter is below 3 and on
    no other row, marks as errors the tasks that own a pending item at its
    last retry, and reports every pending item, in order, as failed with
    the transport's message; it succeeds only if nothing was pending. *)
Theorem sync_with_transport_down (env : Env) (message : string) (size : Z)
    (w : World) :
  transport_down env message size ->
  NoDup (map q_id (sync_queue (db w))) ->
  exists (r : SyncResult) (w' : World),
    sync env w = Some (r, w')
    /\ sync_queue (db w') =
         flat_map
           (fun i =>
              if q_retry_count i <? 3
              then recordFailure (or_default message "Unknown error") i
              else [i])
           (sync_queue (db w))
    /\ tasks (db w') =
         update_where (owns_last_retry (pendingItems (db w)))
           (exhausted (or_default message "Unknown error")) (tasks (db w))
    /\ map entry_of (errors r)
       = map (fun i => (q_task_id i, operation_text (q_operation i),
                        message)) (pendingItems (db w))
    /\ failed_items r = Z.of_nat (List.length (pendingItems (db w)))
    /\ synced_items r = 0
    /\ (success r = true <-> pendingItems (db w) = []).
Proof.
  intros Hdown Hnd.
  destruct (sync_down env message size w Hdown Hnd)
    as [r [w' [E [Q [T [M [F [S B]]]]]]]].
  exists r, w'. repeat split; try assumption.
  - rewrite B, F. intros H0. apply Z.eqb_eq in H0.
    destruct (pendingItems (db w)); [reflexivity | discriminate].
  - intros H0. rewrite B, F, H0. reflexivity.
Qed.

Lemma sync_with_transport_down_witness :
  exists (r : SyncResult) (w' : World),
    sync Sample.timeout_env Sample.world = Some (r, w')
    /\ map q_retry_count (sync_queue (db w')) = [1]
    /\ failed_items r = 1.
Proof.
  destruct (sync_with_transport_down Sample.timeout_env
              "timeout of 30000ms exceeded" 1 Sample.world)
    as [r [w' [E [Q [_ [_ [F _]]]]]]].
  - repeat split. lia.
  - cbn. repeat constructor. intros [].
  - exists r, w'. split; [exact E | split; [|exact F]].
    rewrite Q. reflexivity.
Defined.

(** ** Three runs with the transport down *)

Lemma failure_recorded_below (message : string) (q : list SyncQueueItem)
    (item : SyncQueueItem) :
  In item q -> q_retry_count item + 1 < 3 ->
  In (with_retry (q_retry_count item + 1) (Some message) item)
    (flat_map
       (fun i => if q_retry_count i <? 3 then recordFailure message i
                 else [i]) q).
Proof.
  intros Hin Hlt. apply in_flat_map. exists item. split; [exact Hin|].
  destruct (Z.ltb_spec (q_retry_count item) 3); [|lia].
  unfold recordFailure.
  destruct (Z.geb_spec (q_retry_count item + 1) 3); [lia | now left].
Qed.

Lemma failure_recorded_last (message : string) (q : list SyncQueueItem)
    (item : SyncQueueItem) :
  NoDup (map q_id q) -> In item q -> q_retry_count item = 2 ->
  forall i, In i (flat_map
                    (fun i => if q_retry_count i <? 3
                              then recordFailure message i else [i]) q) ->
            q_id i <> q_id item.
Proof.
  intros Hnd Hin H2 i Hi E. apply in_flat_map in Hi.
  destruct Hi as [r [Hr Hi]].
  assert (Hid : q_id r = q_id item).
  { destruct (q_retry_count r <? 3); [|destruct Hi as [<-|[]]; exact E].
    unfold recordFailure in Hi.
    destruct (q_retry_count r + 1 >=? 3); [contradiction|].
    destruct Hi as [<-|[]]. exact E. }
  rewrite (same_id_same_row q r item Hnd Hr Hin Hid) in Hi.
  unfold recordFailure in Hi. rewrite H2 in Hi. cbn in Hi. exact Hi.
Qed.

(** X12: three runs in a row with the transport down use up the retries
    of an item that starts at counter 0 (row identifiers distinct): after
    the first run its counter is 1, after the second 2, and after the
    third no row has its identifier and every row of its task has sync
    status error with the message "Max retries exceeded: ...". *)
Theorem three_failed_runs_exhaust (e1 e2 e3 : Env) (m1 m2 m3 : string)
    (s1 s2 s3 : Z) (w0 : World) (item : SyncQueueItem) :
  transport_down e1 m1 s1 ->
  transport_down e2 m2 s2 ->
  transport_down e3 m3 s3 ->
  NoDup (map q_id (sync_queue (db w0))) ->
  In item (sync_queue (db w0)) ->
  q_retry_count item = 0 ->
  exists (r1 : SyncResult) (w1 : World) (r2 : SyncResult) (w2 : World)
         (r3 : SyncResult) (w3 : World),
    sync e1 w0 = Some (r1, w1)
    /\ sync e2 w1 = Some (r2, w2)
    /\ sync e3 w2 = Some (r3, w3)
    /\ In (with_retry 1 (Some (or_default m1 "Unknown error")) item)
         (sync_queue (db w1))
    /\ In (with_retry 2 (Some (or_default m2 "Unknown error")) item)
         (sync_queue (db w2))
    /\ (forall i, In i (sync_queue (db w3)) -> q_id i <> q_id item)
    /\ (forall row, In row (tasks (db w3)) ->
          t_id (r_task row) = q_task_id item ->
          t_sync_status (r_task row) = Error
          /\ r_error_message row =
               Some ("Max retries exceeded: "
                     ++ or_default m3 "Unknown error")%string).
Proof.
  intros D1 D2 D3 Hnd0 Hin0 H0.
  destruct (sync_down e1 m1 s1 w0 D1 Hnd0) as [r1 [w1 [E1 [Q1 _]]]].
  pose proof (proj2 (proj2 (evolves_facts _ _
                (sync_evolves e1 w0 r1 w1 Hnd0 E1))) Hnd0) as Hnd1.
  destruct (sync_down e2 m2 s2 w1 D2 Hnd1) as [r2 [w2 [E2 [Q2 _]]]].
  pose proof (proj2 (proj2 (evolves_facts _ _
                (sync_evolves e2 w1 r2 w2 Hnd1 E2))) Hnd1) as Hnd2.
  destruct (sync_down e3 m3 s3 w2 D3 Hnd2) as [r3 [w3 [E3 [Q3 [T3 _]]]]].
  assert (Hin1 : In (with_retry 1 (Some (or_default m1 "Unknown error"))
                       item) (sync_queue (db w1))).
  { rewrite Q1.
    pose proof (failure_recorded_below (or_default m1 "Unknown error")
                  _ item Hin0) as H.
    rewrite H0 in H. apply H. lia. }
  assert (Hin2 : In (with_retry 2 (Some (or_default m2 "Unknown error"))
                       item) (sync_queue (db w2))).
  { rewrite Q2.
    exact (failure_recorded_below (or_default m2 "Unknown error") _
             (with_retry 1 (Some (or_default m1 "Unknown error")) item)
             Hin1 eq_refl). }
  exists r1, w1, r2, w2, r3, w3.
  repeat match goal with |- _ /\ _ => split end; try assumption.
  - rewrite Q3. intros i Hi.
    exact (failure_recorded_last (or_default m3 "Unknown error") _
             (with_retry 2 (Some (or_default m2 "Unknown error")) item)
             Hnd2 Hin2 eq_refl i Hi).
  - intros row Hrow Hid. rewrite T3 in Hrow.
    unfold update_where in Hrow. apply in_map_iff in Hrow.
    destruct Hrow as [row0 [Erow Hrow0]].
    assert (Hown : owns_last_retry (pendingItems (db w2)) row0 = true).
    { unfold owns_last_retry. apply existsb_exists.
      exists (with_retry 2 (Some (or_default m2 "Unknown error")) item).
      split.
      - unfold pendingItems.
        apply (Permutation_in _
                 (Permutation_sym (order_by_created_at_perm _))).
        apply filter_In. split; [exact Hin2 | reflexivity].
      - cbn [with_retry q_retry_count q_task_id].
        destruct (owns_last_retry (pendingItems (db w2)) row0);
          subst row; cbn in Hid; rewrite Hid, String.eqb_refl;
          reflexivity. }
    rewrite Hown in Erow. subst row. split; reflexivity.
Qed.

Lemma three_failed_runs_exhaust_witness :
  exists (r1 : SyncResult) (w1 : World) (r2 : SyncResult) (w2 : World)
         (r3 : SyncResult) (w3 : World),
    sync Sample.timeout_env Sample.world = Some (r1, w1)
    /\ sync Sample.timeout_env w1 = Some (r2, w2)
    /\ sync Sample.timeout_env w2 = Some (r3, w3)
    /\ (forall i, In i (sync_queue (db w3)) -> q_id i <> "sync_1").
Proof.
  destruct (three_failed_runs_exhaust
              Sample.timeout_env Sample.timeout_env Sample.timeout_env
              "timeout of 30000ms exceeded" "timeout of 30000ms exceeded"
              "timeout of 30000ms exceeded" 1 1 1 Sample.world
              Sample.queued_update)
    as [r1 [w1 [r2 [w2 [r3 [w3 [E1 [E2 [E3 [_ [_ [G _]]]]]]]]]]]].
  - repeat split. lia.
  - repeat split. lia.
  - repeat split. lia.
  - cbn. repeat constructor. intros [].
  - now left.
  - reflexivity.
  - exists r1, w1, r2, w2, r3, w3.
    split; [exact E1 | split; [exact E2 | split; [exact E3 | exact G]]].
Defined.

(** ** What [processBatch] hands on *)

(** When [axios.post] resolves and no conflict of the response makes the
    resolver throw, [sync_batch] applies the verdicts that [processBatch]
    hands on, and falls into the [catch] loop if applying them throws. *)
Lemma sync_batch_ok (env : Env) (batch : list SyncQueueItem) (t : Tally)
    (w : World) (ps ps' : list ProcessedItem) (w2 : World) :
  post env (List.length (requests w))
    {| items := batch; client_timestamp := clock env (ticks w) |}
    = PostOk ps ->
  resolve_conflicts ps (requested env batch w) = (inr ps', w2) ->
  sync_batch env batch t w =
    match fst (apply_verdicts env batch ps' t w2) with
    | (t', None) => (t', snd (apply_verdicts env batch ps' t w2))
    | (t', Some message) =>
        fail_batch env batch message t'
          (snd (apply_verdicts env batch ps' t w2))
    end.
Proof.
  intros H Hr. unfold sync_batch, processBatch, bind, new_Date, axios_post.
  cbn [requests ticks db draws console]. rewrite H.
  fold (requested env batch w). rewrite Hr. unfold ret.
  destruct (apply_verdicts env batch ps' t w2) as [[t' [m|]] w3];
    reflexivity.
Qed.

(** When the resolver throws, [sync_batch] is the [catch] loop. *)
Lemma sync_batch_resolver_throws (env : Env) (batch : list SyncQueueItem)
    (t : Tally) (w : World) (ps : list ProcessedItem) (message : string)
    (w2 : World) :
  post env (List.length (requests w))
    {| items := batch; client_timestamp := clock env (ticks w) |}
    = PostOk ps ->
  resolve_conflicts ps (requested env batch w) = (inl message, w2) ->
  processBatch env batch w = (inl message, w2)
  /\ sync_batch env batch t w = fail_batch env batch message t w2.
Proof.
  intros H Hr. unfold sync_batch, processBatch, bind, new_Date, axios_post.
  cbn [requests ticks db draws console]. rewrite H.
  fold (requested env batch w). rewrite Hr. split; reflexivity.
Qed.

Lemma getTask_same_db (id : string) (w w' : World) :
  db w' = db w -> fst (getTask id w') = fst (getTask id w).
Proof. intros H. cbn [getTask fst]. now rewrite H. Qed.

(** The resolver passes success verdicts on as they are. *)
Lemma resolve_conflicts_successes (ps : list ProcessedItem) :
  Forall (fun p => status p = ItemSuccess) ps ->
  forall w : World, resolve_conflicts ps w = (inr ps, w).
Proof.
  induction 1 as [|p ps Hp Hps IH]; intros w.
  - reflexivity.
  - cbn [resolve_conflicts]. unfold bind, resolve_item. rewrite Hp.
    unfold ret. now rewrite IH.
Qed.

Lemma resolve_conflicts_skip (p : ProcessedItem)
    (l : list ProcessedItem) (w : World) :
  status p <> ItemConflict ->
  resolve_conflicts (p :: l) w
    = (match fst (resolve_conflicts l w) with
       | inl message => inl message
       | inr l' => inr (p :: l')
       end, snd (resolve_conflicts l w)).
Proof.
  intros H. cbn [resolve_conflicts]. unfold bind, resolve_item.
  destruct (status p); try contradiction; unfold ret;
    destruct (resolve_conflicts l w) as [[m|l'] w']; reflexivity.
Qed.

Lemma resolve_conflicts_prefix (pre l l' : list ProcessedItem)
    (w w' : World) :
  Forall (fun p => status p = ItemSuccess) pre ->
  resolve_conflicts l w = (inr l', w') ->
  resolve_conflicts (pre ++ l) w = (inr (pre ++ l'), w').
Proof.
  intros Hpre E. induction Hpre as [|p pre Hp Hpre IH].
  - exact E.
  - cbn [app]. rewrite resolve_conflicts_skip by (rewrite Hp; discriminate).
    now rewrite IH.
Qed.

(** A verdict on which the resolver does not throw is handed on, for the
    same task. *)
Lemma resolve_item_quiet (p : ProcessedItem) (w0 w : World) :
  db w = db w0 ->
  ~ resolver_throws w0 p ->
  exists (p' : ProcessedItem) (w' : World),
    resolve_item p w = (inr p', w')
    /\ db w' = db w
    /\ client_id p' = client_id p.
Proof.
  intros D H. unfold resolve_item.
  destruct (status p) eqn:Es;
    try (exists p, w; repeat split; fail).
  rewrite bind_run.
  pose proof (getTask_same_db (client_id p) w0 w D) as G.
  cbn [getTask fst snd] in *.
  destruct (option_map r_task _) as [l|] eqn:Eg;
    [|exists p, w; repeat split].
  destruct (resolved_data p) as [[s|fields]|] eqn:Ed.
  - rewrite bind_run. cbn [ret fst snd]. do 2 eexists.
    split; [reflexivity | split; reflexivity].
  - exfalso. apply H. split; [exact Es | split].
    + cbn [getTask fst]. rewrite <- G. discriminate.
    + now exists fields.
  - exists p, w. repeat split.
Qed.

Lemma resolve_conflicts_quiet (l : list ProcessedItem) (w0 : World) :
  Forall (fun v => ~ resolver_throws w0 v) l ->
  forall w : World,
    db w = db w0 ->
    exists (l' : list ProcessedItem) (w' : World),
      resolve_conflicts l w = (inr l', w')
      /\ map client_id l' = map client_id l.
Proof.
  induction 1 as [|p l Hp Hl IH]; intros w D.
  - exists [], w. split; reflexivity.
  - destruct (resolve_item_quiet p w0 w D Hp) as [p' [w1 [E [D1 C]]]].
    destruct (IH w1) as [l' [w2 [E2 M]]]; [congruence|].
    exists (p' :: l'), w2. cbn [resolve_conflicts]. unfold bind.
    rewrite E, E2. unfold ret. cbn [map]. now rewrite C, M.
Qed.

(** The resolver throws at the first conflict on a task found locally
    whose data was parsed from JSON. *)
Lemma resolve_conflicts_throws (pre : list ProcessedItem)
    (p : ProcessedItem) (rest : list ProcessedItem) (w0 : World)
    (l : Task) (fields : PartialTask) :
  Forall (fun v => ~ resolver_throws w0 v) pre ->
  status p = ItemConflict ->
  fst (getTask (client_id p) w0) = Some l ->
  resolved_data p = Some (Json fields) ->
  forall w : World,
    db w = db w0 ->
    exists w' : World,
      resolve_conflicts (pre ++ p :: rest) w
        = (inl (getTime_message fields), w')
      /\ db w' = db w.
Proof.
  intros Hpre Hc Hl Hd. induction Hpre as [|a pre Ha Hpre IH]; intros w D.
  - exists w. split; [|reflexivity].
    cbn [app resolve_conflicts]. unfold bind at 1, resolve_item.
    rewrite Hc. unfold bind at 1.
    pose proof (getTask_same_db (client_id p) w0 w D) as G.
    rewrite Hl in G. cbn [getTask fst] in G. cbn [getTask].
    rewrite G, Hd. reflexivity.
  - destruct (resolve_item_quiet a w0 w D Ha) as [a' [w1 [E [D1 _]]]].
    destruct (IH w1) as [w' [E' D']]; [congruence|].
    exists w'. split; [|congruence].
    cbn [app resolve_conflicts]. unfold bind at 1. rewrite E.
    unfold bind at 1. rewrite E'. reflexivity.
Qed.

(** ** A run the server confirms *)

Lemma filter_twice {A : Type} (f g : A -> bool) (l : list A) :
  filter f (filter g l) = filter (fun x => g x && f x) l.
Proof.
  induction l as [|a l IH]; cbn; [reflexivity|].
  destruct (g a); cbn; [destruct (f a)|]; now rewrite IH.
Qed.

Lemma updateSyncStatus_synced_on (env : Env) (taskId : string)
    (serverData : option ResolvedData) (ids : list string)
    (w : World) :
  synced_on ids w ->
  synced_on (taskId :: ids)
    (snd (updateSyncStatus env taskId Synced serverData w)).
Proof.
  intros H row Hrow Hid. cbn in Hrow.
  unfold update_where in Hrow. apply in_map_iff in Hrow.
  destruct Hrow as [row0 [E Hrow0]].
  destruct (String.eqb_spec (t_id (r_task row0)) taskId) as [Ei|Ni];
    subst row; [reflexivity|].
  destruct Hid as [Hid|Hid]; [congruence|]. now apply H.
Qed.

(** Applying verdicts that are all successes: every verdict counts as
    synced, none as failed, and the queue loses the rows of the tasks
    named. *)
Lemma apply_verdicts_success (env : Env) (batch : list SyncQueueItem)
    (ps : list ProcessedItem) :
  Forall (fun p => status p = ItemSuccess) ps ->
  forall (t : Tally) (w : World) (ids : list string),
    synced_on ids w ->
    snd (fst (apply_verdicts env batch ps t w)) = None
    /\ syncedItems (fst (fst (apply_verdicts env batch ps t w)))
       = syncedItems t + Z.of_nat (List.length ps)
    /\ failedItems (fst (fst (apply_verdicts env batch ps t w)))
       = failedItems t
    /\ errors_so_far (fst (fst (apply_verdicts env batch ps t w)))
       = errors_so_far t
    /\ sync_queue (db (snd (apply_verdicts env batch ps t w)))
       = filter (fun r => negb (existsb (String.eqb (q_task_id r))
                                  (map client_id ps)))
           (sync_queue (db w))
    /\ synced_on (rev (map client_id ps) ++ ids)
         (snd (apply_verdicts env batch ps t w)).
Proof.
  induction 1 as [|p ps Hp Hps IH]; intros t w ids Hs.
  - cbn. repeat split; try lia; try exact Hs.
    induction (sync_queue (db w)) as [|a l IHl]; cbn; congruence.
  - cbn [apply_verdicts]. rewrite Hp, bind_run.
    destruct (IH (count_synced t)
                (snd (updateSyncStatus env (client_id p) Synced
                        (resolved_data p) w))
                (client_id p :: ids)
                (updateSyncStatus_synced_on env _ _ ids w Hs))
      as [N [S [F [E [Q Y]]]]].
    rewrite N, S, F, E, Q. cbn [count_synced syncedItems failedItems
      errors_so_far List.length map rev].
    repeat split; try lia.
    + cbn [updateSyncStatus]. cbn -[filter existsb].
      unfold delete_where. rewrite filter_twice. apply filter_ext.
      intros r. cbn [existsb]. now rewrite negb_orb.
    + rewrite <- app_assoc. exact Y.
Qed.

Lemma synced_on_incl (ids ids' : list string) (w : World) :
  (forall x, In x ids' -> In x ids) -> synced_on ids w -> synced_on ids' w.
Proof. intros Hi H row Hrow Hin. apply H; [exact Hrow | now apply Hi]. Qed.

Lemma synced_on_same_db (ids : list string) (w w' : World) :
  db w' = db w -> synced_on ids w -> synced_on ids w'.
Proof. intros D H row Hrow. rewrite D in Hrow. now apply H. Qed.

(** One batch the server confirms. *)
Lemma sync_batch_confirmed (env : Env) (batch : list SyncQueueItem)
    (t : Tally) (w : World) (ps : list ProcessedItem) :
  post env (List.length (requests w))
    {| items := batch; client_timestamp := clock env (ticks w) |}
    = PostOk ps ->
  Forall (fun p => status p = ItemSuccess) ps ->
  failedItems (fst (sync_batch env batch t w)) = failedItems t
  /\ errors_so_far (fst (sync_batch env batch t w)) = errors_so_far t
  /\ syncedItems (fst (sync_batch env batch t w))
     = syncedItems t + Z.of_nat (List.length ps)
  /\ sync_queue (db (snd (sync_batch env batch t w)))
     = filter (fun r => negb (existsb (String.eqb (q_task_id r))
                                (map client_id ps)))
         (sync_queue (db w))
  /\ forall ids, synced_on ids w ->
       synced_on (map client_id ps ++ ids) (snd (sync_batch env batch t w)).
Proof.
  intros Hpost Hc.
  rewrite (sync_batch_ok env batch t w ps ps (requested env batch w) Hpost
             (resolve_conflicts_successes ps Hc _)).
  set (w2 := requested env batch w).
  assert (Hall : forall ids, synced_on ids w ->
            snd (fst (apply_verdicts env batch ps t w2)) = None
            /\ syncedItems (fst (fst (apply_verdicts env batch ps t w2)))
               = syncedItems t + Z.of_nat (List.length ps)
            /\ failedItems (fst (fst (apply_verdicts env batch ps t w2)))
               = failedItems t
            /\ errors_so_far (fst (fst (apply_verdicts env batch ps t w2)))
               = errors_so_far t
            /\ sync_queue (db (snd (apply_verdicts env batch ps t w2)))
               = filter (fun r => negb (existsb (String.eqb (q_task_id r))
                                          (map client_id ps)))
                   (sync_queue (db w))
            /\ synced_on (rev (map client_id ps) ++ ids)
                 (snd (apply_verdicts env batch ps t w2))).
  { intros ids Hs. apply (apply_verdicts_success env batch ps Hc t w2 ids).
    apply (synced_on_same_db ids w); [reflexivity | exact Hs]. }
  destruct (Hall [] (fun row _ (H : In _ []) => match H with end))
    as [N [S [Fl [E [Q _]]]]].
  destruct (apply_verdicts env batch ps t w2) as [[t' o] w3] eqn:Ea.
  cbn [fst snd] in *. subst o. cbn [fst snd].
  rewrite S, Fl, E, Q.
  repeat split. intros ids Hs.
  destruct (Hall ids Hs) as [_ [_ [_ [_ [_ Y]]]]].
  cbn [snd] in Y.
  apply (synced_on_incl (rev (map client_id ps) ++ ids)); [|exact Y].
  intros x Hx. apply in_app_or in Hx. apply in_or_app.
  destruct Hx as [Hx|Hx]; [left | now right].
  now apply -> in_rev.
Qed.

Lemma sync_batches_confirmed (env : Env)
    (batches : list (list SyncQueueItem)) :
  (forall n request, exists ps,
      post env n request = PostOk ps
      /\ Forall (fun p => status p = ItemSuccess) ps
      /\ forall i, In i (items request) ->
           In (q_task_id i) (map client_id ps)) ->
  forall (t : Tally) (w : World),
    exists ids : list string,
      sync_queue (db (snd (sync_batches env batches t w)))
        = filter (fun r => negb (existsb (String.eqb (q_task_id r)) ids))
            (sync_queue (db w))
      /\ (forall b i, In b batches -> In i b -> In (q_task_id i) ids)
      /\ failedItems (fst (sync_batches env batches t w)) = failedItems t
      /\ errors_so_far (fst (sync_batches env batches t w))
         = errors_so_far t
      /\ syncedItems t <= syncedItems (fst (sync_batches env batches t w))
      /\ forall S, synced_on S w ->
           synced_on (ids ++ S) (snd (sync_batches env batches t w)).
Proof.
  intros Hserver. induction batches as [|b rest IH]; intros t w.
  - exists []. cbn. repeat split; try lia; try (intros; contradiction).
    + induction (sync_queue (db w)) as [|a l IHl]; cbn; congruence.
    + auto.
  - cbn [sync_batches]. rewrite bind_run.
    destruct (Hserver (List.length (requests w))
                {| items := b; client_timestamp := clock env (ticks w) |})
      as [ps [Hpost [Hc Hcov]]].
    destruct (sync_batch_confirmed env b t w ps Hpost Hc)
      as [F1 [E1 [S1 [Q1 Y1]]]].
    destruct (IH (fst (sync_batch env b t w)) (snd (sync_batch env b t w)))
      as [ids [Q2 [Cov2 [F2 [E2 [S2 Y2]]]]]].
    exists (map client_id ps ++ ids).
    split; [|split; [|split; [|split; [|split]]]].
    + rewrite Q2, Q1, filter_twice. apply filter_ext. intros r.
      now rewrite existsb_app, negb_orb.
    + intros b' i [<-|Hb'] Hi; apply in_or_app.
      * left. now apply Hcov.
      * right. now apply (Cov2 b' i).
    + now rewrite F2.
    + now rewrite E2.
    + lia.
    + intros S HS.
      apply (synced_on_incl (ids ++ map client_id ps ++ S));
        [|apply Y2, Y1, HS].
      intros x Hx. rewrite <- app_assoc in Hx.
      apply in_app_or in Hx. apply in_or_app.
      destruct Hx as [Hx|Hx]; [right; apply in_or_app; now left|].
      apply in_app_or in Hx. destruct Hx as [Hx|Hx]; [now left|].
      right. apply in_or_app. now right.
Qed.

Lemma filter_none {A : Type} (p : A -> bool) (l : list A) :
  (forall x, In x l -> p x = false) -> filter p l = [].
Proof.
  induction l as [|a l IH]; intros H; cbn; [reflexivity|].
  rewrite (H a) by now left. apply IH. intros x Hx. apply H. now right.
Qed.

(** A run the server confirms (see the theorem below). *)
Lemma sync_confirmed_run (env : Env) (w : World) (size : Z) :
  health env = true ->
  BATCH_SIZE env = Num size ->
  1 <= size ->
  (forall n request, exists ps,
      post env n request = PostOk ps
      /\ Forall (fun p => status p = ItemSuccess) ps
      /\ forall i, In i (items request) ->
           In (q_task_id i) (map client_id ps)) ->
  exists (r : SyncResult) (w' : World),
    sync env w = Some (r, w')
    /\ success r = true
    /\ failed_items r = 0
    /\ errors r = []
    /\ pendingItems (db w') = []
    /\ (forall i, In i (sync_queue (db w')) ->
          In i (sync_queue (db w)) /\ 3 <= q_retry_count i)
    /\ (forall row i, In row (tasks (db w')) ->
          In i (pendingItems (db w)) ->
          q_task_id i = t_id (r_task row) ->
          t_sync_status (r_task row) = Synced).
Proof.
  intros Hh Hsz Hpos Hserver.
  unfold sync, checkConnectivity, ret. rewrite Hh. cbn [negb].
  destruct (Z.eqb_spec (Z.of_nat (List.length (pendingItems (db w)))) 0)
    as [He|Hne].
  - destruct (pendingItems (db w)) eqn:Ep; [|discriminate].
    do 2 eexists. split; [reflexivity|]. cbn.
    repeat split; try reflexivity.
    + exact Ep.
    + exact H.
    + destruct (Z.ltb_spec (q_retry_count i) 3) as [Hlt|Hge]; [|lia].
      exfalso. assert (Hin : In i (pendingItems (db w))).
      { unfold pendingItems.
        apply (Permutation_in _
                 (Permutation_sym (order_by_created_at_perm _))).
        apply filter_In. split; [exact H|].
        now apply Z.ltb_lt. }
      rewrite Ep in Hin. contradiction.
    + intros row i _ [].
  - rewrite Hsz.
    destruct (make_batches_positive size (pendingItems (db w)) Hpos
                (List.length (pendingItems (db w))) 0)
      as [bs [E [C _]]]; try lia.
    rewrite E. cbn [skipn Z.to_nat] in C.
    set (t0 := {| syncedItems := 0; failedItems := 0;
                  errors_so_far := [] |}).
    destruct (sync_batches_confirmed env bs Hserver t0 w)
      as [ids [Q [Cov [F [Er [_ Y]]]]]].
    destruct (sync_batches env bs t0 w) as [t w2].
    cbn [fst snd] in *. do 2 eexists. split; [reflexivity|].
    cbn [success failed_items errors]. rewrite F, Er.
    assert (Hids : forall i, In i (pendingItems (db w)) ->
                     In (q_task_id i) ids).
    { intros i Hi. rewrite <- C in Hi. apply in_concat in Hi.
      destruct Hi as [b [Hb Hi]]. exact (Cov b i Hb Hi). }
    assert (Hleft : forall i, In i (sync_queue (db w2)) ->
                      In i (sync_queue (db w)) /\ 3 <= q_retry_count i).
    { intros i Hi. rewrite Q in Hi. apply filter_In in Hi.
      destruct Hi as [Hi Hn]. split; [exact Hi|].
      destruct (Z.ltb_spec (q_retry_count i) 3) as [Hlt|Hge]; [|lia].
      exfalso. assert (Hin : In i (pendingItems (db w))).
      { unfold pendingItems.
        apply (Permutation_in _
                 (Permutation_sym (order_by_created_at_perm _))).
        apply filter_In. split; [exact Hi | now apply Z.ltb_lt]. }
      apply Hids in Hin. apply negb_true_iff in Hn.
      assert (Ht : existsb (String.eqb (q_task_id i)) ids = true).
      { apply existsb_exists. exists (q_task_id i).
        split; [exact Hin | apply String.eqb_refl]. }
      congruence. }
    repeat split; try reflexivity.
    + unfold pendingItems. rewrite filter_none; [reflexivity|].
      intros x Hx. apply Z.ltb_ge. apply (Hleft x Hx).
    + apply (Hleft i H).
    + apply (Hleft i H).
    + intros row i Hrow Hi Hid.
      apply (Y [] (fun row _ (H : In _ []) => match H with end) row Hrow).
      rewrite app_nil_r, <- Hid. now apply Hids.
Qed.

Lemma sync_nothing_pending (env : Env) (w : World) :
  health env = true ->
  pendingItems (db w) = [] ->
  sync env w =
    Some ({| success := true; synced_items := 0; failed_items := 0;
             errors := [] |}, w).
Proof.
  intros Hh Hp. unfold sync, checkConnectivity, ret.
  rewrite Hh, Hp. reflexivity.
Qed.

(** X13: when the server answers every request with success verdicts
    that cover the tasks of the items sent, a run (batch size at least 1)
    reports success with no failure and no error, leaves nothing pending
    (the rows left are old rows with a counter of 3 or more), and every
    task that owned a pending item has sync status synced; a further run
    then sends nothing and changes nothing. *)
Theorem sync_confirmed_run_drains (env : Env) (w : World) (size : Z) :
  health env = true ->
  BATCH_SIZE env = Num size ->
  1 <= size ->
  (forall n request, exists ps,
      post env n request = PostOk ps
      /\ Forall (fun p => status p = ItemSuccess) ps
      /\ forall i, In i (items request) ->
           In (q_task_id i) (map client_id ps)) ->
  exists (r : SyncResult) (w' : World),
    sync env w = Some (r, w')
    /\ success r = true
    /\ failed_items r = 0
    /\ errors r = []
    /\ pendingItems (db w') = []
    /\ (forall i, In i (sync_queue (db w')) ->
          In i (sync_queue (db w)) /\ 3 <= q_retry_count i)
    /\ (forall row i, In row (tasks (db w')) ->
          In i (pendingItems (db w)) ->
          q_task_id i = t_id (r_task row) ->
          t_sync_status (r_task row) = Synced)
    /\ (forall env' : Env,
          health env' = true ->
          sync env' w' =
            Some ({| success := true; synced_items := 0;
                     failed_items := 0; errors := [] |}, w')).
Proof.
  intros Hh Hsz Hpos Hserver.
  destruct (sync_confirmed_run env w size Hh Hsz Hpos Hserver)
    as [r [w' [E [S [F [Er [P [L T]]]]]]]].
  exists r, w'. repeat split; try assumption.
  - apply (L i H).
  - apply (L i H).
  - intros env' Hh'. now apply sync_nothing_pending.
Qed.

Lemma sync_confirmed_run_drains_witness :
  exists (r : SyncResult) (w' : World),
    sync Sample.confirming_env Sample.world = Some (r, w')
    /\ success r = true
    /\ pendingItems (db w') = [].
Proof.
  destruct (sync_confirmed_run_drains Sample.confirming_env Sample.world 50)
    as [r [w' [E [S [_ [_ [P _]]]]]]].
  - reflexivity.
  - reflexivity.
  - lia.
  - intros n request. eexists. split; [reflexivity | split].
    + apply Forall_forall. intros p Hp. apply in_map_iff in Hp.
      now destruct Hp as [i [<- _]].
    + intros i Hi. rewrite map_map. cbn [client_id].
      now apply (in_map q_task_id).
  - exists r, w'. split; [exact E | split; [exact S | exact P]].
Defined.

(** ** Verdicts that cannot be applied *)

Lemma apply_verdicts_prefix (env : Env) (batch : list SyncQueueItem)
    (pre l : list ProcessedItem) :
  Forall (fun p => status p = ItemSuccess) pre ->
  forall (t : Tally) (w : World),
    exists (t1 : Tally) (w1 : World),
      apply_verdicts env batch (pre ++ l) t w
        = apply_verdicts env batch l t1 w1
      /\ syncedItems t1 = syncedItems t + Z.of_nat (List.length pre)
      /\ failedItems t1 = failedItems t
      /\ errors_so_far t1 = errors_so_far t.
Proof.
  induction 1 as [|p pre Hp Hpre IH]; intros t w.
  - exists t, w. cbn. repeat split. lia.
  - cbn [app apply_verdicts]. rewrite Hp, bind_run.
    destruct (IH (count_synced t)
                (snd (updateSyncStatus env (client_id p) Synced
                        (resolved_data p) w)))
      as [t1 [w1 [E [S [F Er]]]]].
    exists t1, w1. rewrite E, S, F, Er. cbn. repeat split. lia.
Qed.

(** X14: when the response holds an error verdict for a task that no item
    of the batch names, after verdicts that are all successes and before
    verdicts on which the resolver does not throw, the batch is failed as
    a whole with the message of the [TypeError]: the successes before it
    stay counted as synced, every item of the batch is counted as failed
    and gets an error entry, and the verdicts after it are not applied. *)
Theorem unmatched_verdict_fails_batch (env : Env)
    (batch : list SyncQueueItem) (t : Tally) (w : World)
    (pre : list ProcessedItem) (p : ProcessedItem)
    (rest : list ProcessedItem) :
  post env (List.length (requests w))
    {| items := batch; client_timestamp := clock env (ticks w) |}
    = PostOk (pre ++ p :: rest) ->
  Forall (fun v => status v = ItemSuccess) pre ->
  status p = ItemError ->
  find (fun b => String.eqb (q_task_id b) (client_id p)) batch = None ->
  Forall (fun v => ~ resolver_throws w v) rest ->
  exists (t' : Tally) (w' : World) (es : list SyncError),
    sync_batch env batch t w = (t', w')
    /\ syncedItems t' = syncedItems t + Z.of_nat (List.length pre)
    /\ failedItems t' = failedItems t + Z.of_nat (List.length batch)
    /\ errors_so_far t' = errors_so_far t ++ es
    /\ map entry_of es
       = map (fun i => (q_task_id i, operation_text (q_operation i),
                        undefined_item_message)) batch.
Proof.
  intros Hpost Hpre Hp Hfind Hrest.
  destruct (resolve_conflicts_quiet rest w Hrest (requested env batch w)
              eq_refl) as [rest' [w2 [Er _]]].
  assert (Hres : resolve_conflicts (pre ++ p :: rest)
                   (requested env batch w)
                 = (inr (pre ++ p :: rest'), w2)).
  { apply resolve_conflicts_prefix; [exact Hpre|].
    rewrite resolve_conflicts_skip by (rewrite Hp; discriminate).
    now rewrite Er. }
  rewrite (sync_batch_ok env batch t w _ _ _ Hpost Hres).
  destruct (apply_verdicts_prefix env batch pre (p :: rest') Hpre t w2)
    as [t1 [w1 [Ea [S [F Ee]]]]].
  rewrite Ea. cbn [apply_verdicts]. rewrite Hp, Hfind.
  unfold ret. cbn [fst snd].
  destruct (fail_batch_tally env undefined_item_message batch t1 w1)
    as [es [E [M [Ff Sf]]]].
  destruct (fail_batch env batch undefined_item_message t1 w1)
    as [t' w'].
  cbn [fst snd] in *. exists t', w', es.
  rewrite Sf, Ff, E, S, F, Ee. repeat split. exact M.
Qed.

Lemma unmatched_verdict_fails_batch_witness :
  exists (t' : Tally) (w' : World),
    sync_batch
      {| health := true;
         post := fun _ _ =>
           PostOk [{| client_id := "B"; server_id := "B";
                      status := ItemError; resolved_data := None;
                      error := Some "no such task" |}];
         clock := fun n => 5000 + Z.of_nat n;
         fresh_id := fun _ => "x";
         SYNC_BATCH_SIZE := None |}
      [Sample.queued_update]
      {| syncedItems := 0; failedItems := 0; errors_so_far := [] |}
      Sample.world = (t', w')
    /\ failedItems t' = 1
    /\ map e_error (errors_so_far t') = [undefined_item_message].
Proof.
  destruct (unmatched_verdict_fails_batch
              {| health := true;
                 post := fun _ _ =>
                   PostOk [{| client_id := "B"; server_id := "B";
                              status := ItemError; resolved_data := None;
                              error := Some "no such task" |}];
                 clock := fun n => 5000 + Z.of_nat n;
                 fresh_id := fun _ => "x";
                 SYNC_BATCH_SIZE := None |}
              [Sample.queued_update]
              {| syncedItems := 0; failedItems := 0; errors_so_far := [] |}
              Sample.world []
              {| client_id := "B"; server_id := "B"; status := ItemError;
                 resolved_data := None; error := Some "no such task" |}
              [] eq_refl (Forall_nil _) eq_refl eq_refl (Forall_nil _))
    as [t' [w' [es [E [_ [F [Er M]]]]]]].
  exists t', w'. split; [exact E | split; [exact F|]].
  rewrite Er. cbn [app].
  destruct es as [|e [|e' es]]; try discriminate.
  cbn in M. injection M as _ _ He. cbn. now rewrite He.
Defined.

Lemma extends_refl (t : Tally) : extends t t.
Proof. split; [exists []; now rewrite app_nil_r | lia]. Qed.

Lemma extends_trans (t1 t2 t3 : Tally) :
  extends t1 t2 -> extends t2 t3 -> extends t1 t3.
Proof.
  intros [[e1 E1] F1] [[e2 E2] F2]. split; [|lia].
  exists (e1 ++ e2). now rewrite E2, E1, app_assoc.
Qed.

Lemma extends_count_failed (e : SyncError) (t : Tally) :
  extends t (count_failed e t).
Proof. split; [exists [e]; reflexivity | cbn; lia]. Qed.

Lemma extends_count_synced (t : Tally) : extends t (count_synced t).
Proof. split; [exists []; cbn; now rewrite app_nil_r | cbn; lia]. Qed.

Lemma fail_batch_extends (env : Env) (message : string)
    (batch : list SyncQueueItem) :
  forall (t : Tally) (w : World),
    extends t (fst (fail_batch env batch message t w)).
Proof.
  induction batch as [|item rest IH]; intros t w.
  - apply extends_refl.
  - cbn [fail_batch]. rewrite bind_run, bind_run.
    eapply extends_trans; [apply extends_count_failed | apply IH].
Qed.

Lemma apply_verdicts_extends (env : Env) (batch : list SyncQueueItem)
    (processed : list ProcessedItem) :
  forall (t : Tally) (w : World),
    extends t (fst (fst (apply_verdicts env batch processed t w))).
Proof.
  induction processed as [|item rest IH]; intros t w.
  - apply extends_refl.
  - cbn [apply_verdicts].
    assert (Hfail : forall w0,
      extends t (fst (fst
        (match find (fun b => String.eqb (q_task_id b) (client_id item))
                 batch with
         | None => ret (t, Some undefined_item_message)
         | Some b =>
             handleSyncError b
               (opt_or_default (error item) "Sync failed") ;;
             now <- new_Date env ;;
             apply_verdicts env batch rest
               (count_failed
                  {| e_task_id := client_id item;
                     e_operation := operation_text (q_operation b);
                     e_error := opt_or_default (error item) "Sync failed";
                     e_timestamp := now |} t)
         end w0)))).
    { intros w0. destruct (find _ batch) as [b|]; [|apply extends_refl].
      rewrite bind_run, bind_run.
      eapply extends_trans; [apply extends_count_failed | apply IH]. }
    destruct (status item); try apply Hfail.
    rewrite bind_run.
    eapply extends_trans; [apply extends_count_synced | apply IH].
Qed.

(** X15: a conflict verdict for a task that [getTask] does not find (never
    created here, or deleted here), or one that carries no server version,
    is not resolved: when the resolver throws on no later verdict, the
    run counts a failure and reports the task with the operation of its
    first item in the batch and the text of the verdict, "Sync failed"
    when there is none. *)
Theorem unresolved_conflict_is_reported (env : Env)
    (batch : list SyncQueueItem) (t : Tally) (w : World)
    (p : ProcessedItem) (rest : list ProcessedItem) (b : SyncQueueItem) :
  post env (List.length (requests w))
    {| items := batch; client_timestamp := clock env (ticks w) |}
    = PostOk (p :: rest) ->
  status p = ItemConflict ->
  fst (getTask (client_id p) w) = None \/ resolved_data p = None ->
  find (fun i => String.eqb (q_task_id i) (client_id p)) batch = Some b ->
  Forall (fun v => ~ resolver_throws w v) rest ->
  failedItems t + 1 <= failedItems (fst (sync_batch env batch t w))
  /\ exists ts : Z,
       In {| e_task_id := client_id p;
             e_operation := operation_text (q_operation b);
             e_error := opt_or_default (error p) "Sync failed";
             e_timestamp := ts |}
          (errors_so_far (fst (sync_batch env batch t w))).
Proof.
  intros Hpost Hc Hun Hfind Hrest.
  destruct (resolve_conflicts_quiet rest w Hrest (requested env batch w)
              eq_refl) as [rest' [w2 [Er _]]].
  assert (Hres : resolve_conflicts (p :: rest) (requested env batch w)
                 = (inr (p :: rest'), w2)).
  { cbn [resolve_conflicts]. unfold bind at 1, resolve_item. rewrite Hc.
    unfold bind at 1. cbn [getTask].
    change (db (requested env batch w)) with (db w).
    cbn [getTask fst] in Hun.
    destruct (option_map r_task _) as [l|].
    - destruct Hun as [Hun|Hun]; [discriminate|]. rewrite Hun.
      unfold ret, bind. now rewrite Er.
    - unfold ret, bind. now rewrite Er. }
  rewrite (sync_batch_ok env batch t w _ _ _ Hpost Hres).
  cbn [apply_verdicts]. rewrite Hc, Hfind, bind_run, bind_run.
  match goal with
  | |- context [apply_verdicts env batch rest' (count_failed ?e t) ?x] =>
      set (e0 := e); set (w3 := x)
  end.
  pose proof (apply_verdicts_extends env batch rest' (count_failed e0 t) w3)
    as H1.
  assert (H2 : extends (count_failed e0 t)
                 (fst (match fst (apply_verdicts env batch rest'
                                    (count_failed e0 t) w3) with
                       | (t', None) =>
                           (t', snd (apply_verdicts env batch rest'
                                       (count_failed e0 t) w3))
                       | (t', Some message) =>
                           fail_batch env batch message t'
                             (snd (apply_verdicts env batch rest'
                                     (count_failed e0 t) w3))
                       end))).
  { destruct (fst (apply_verdicts env batch rest' (count_failed e0 t) w3))
      as [t' [m|]]; cbn [fst] in *.
    - eapply extends_trans; [exact H1 | apply fail_batch_extends].
    - exact H1. }
  destruct H2 as [[es Ees] Hf]. cbn [count_failed failedItems
    errors_so_far] in Ees, Hf.
  split; [exact Hf|].
  exists (e_timestamp e0). rewrite Ees.
  apply in_or_app. left. apply in_or_app. right. now left.
Qed.

Lemma unresolved_conflict_is_reported_witness :
  failedItems {| syncedItems := 0; failedItems := 0; errors_so_far := [] |}
  + 1
  <= failedItems
       (fst (sync_batch Sample.conflict_env [Sample.queued_update]
               {| syncedItems := 0; failedItems := 0; errors_so_far := [] |}
               (set_tasks [] Sample.world))).
Proof.
  apply (unresolved_conflict_is_reported Sample.conflict_env
           [Sample.queued_update]
           {| syncedItems := 0; failedItems := 0; errors_so_far := [] |}
           (set_tasks [] Sample.world)
           Sample.conflict_verdict
           [] Sample.queued_update eq_refl eq_refl).
  - now left.
  - reflexivity.
  - constructor.
Defined.

(** ** Conflicts that reach the resolver *)

(** X16: a conflict verdict on a task that [getTask] finds, with the
    server's version as the JSON body carries it, makes [processBatch]
    throw the [TypeError] of [getTime] (on no earlier verdict does the
    resolver throw): no verdict of the response is applied, the batch is
    failed as by a transport failure, every item is counted as failed and
    gets an error entry with the text of the [TypeError]. *)
Theorem json_conflict_fails_batch (env : Env)
    (batch : list SyncQueueItem) (t : Tally) (w : World)
    (pre : list ProcessedItem) (p : ProcessedItem)
    (rest : list ProcessedItem) (l : Task) (fields : PartialTask) :
  post env (List.length (requests w))
    {| items := batch; client_timestamp := clock env (ticks w) |}
    = PostOk (pre ++ p :: rest) ->
  Forall (fun v => ~ resolver_throws w v) pre ->
  status p = ItemConflict ->
  fst (getTask (client_id p) w) = Some l ->
  resolved_data p = Some (Json fields) ->
  exists (w1 : World) (t' : Tally) (w' : World) (es : list SyncError),
    processBatch env batch w = (inl (getTime_message fields), w1)
    /\ db w1 = db w
    /\ sync_batch env batch t w = (t', w')
    /\ fail_batch env batch (getTime_message fields) t w1 = (t', w')
    /\ syncedItems t' = syncedItems t
    /\ failedItems t' = failedItems t + Z.of_nat (List.length batch)
    /\ errors_so_far t' = errors_so_far t ++ es
    /\ map entry_of es
       = map (fun i => (q_task_id i, operation_text (q_operation i),
                        getTime_message fields)) batch
    /\ (p_updated_at fields <> None ->
        getTime_message fields
        = "serverTask.updated_at.getTime is not a function").
Proof.
  intros Hpost Hpre Hc Hl Hd.
  destruct (resolve_conflicts_throws pre p rest w l fields Hpre Hc Hl Hd
              (requested env batch w) eq_refl) as [w1 [Er D]].
  destruct (sync_batch_resolver_throws env batch t w _ _ _ Hpost Er)
    as [Hp Hs].
  destruct (fail_batch_tally env (getTime_message fields) batch t w1)
    as [es [E [M [F S]]]].
  destruct (fail_batch env batch (getTime_message fields) t w1)
    as [t' w'] eqn:Ef.
  cbn [fst snd] in *. exists w1, t', w', es.
  split; [exact Hp | split; [exact D | split; [exact Hs|]]].
  split; [exact Ef | split; [exact S | split; [exact F|]]].
  split; [exact E | split; [exact M|]].
  unfold getTime_message. destruct (p_updated_at fields);
    [reflexivity | intros H; now contradiction H].
Qed.

Lemma json_conflict_fails_batch_witness :
  exists (t' : Tally) (w' : World),
    sync_batch Sample.conflict_env [Sample.queued_update]
      {| syncedItems := 0; failedItems := 0; errors_so_far := [] |}
      Sample.world = (t', w')
    /\ syncedItems t' = 0
    /\ failedItems t' = 1
    /\ map e_error (errors_so_far t')
       = ["serverTask.updated_at.getTime is not a function"].
Proof.
  destruct (json_conflict_fails_batch Sample.conflict_env
              [Sample.queued_update]
              {| syncedItems := 0; failedItems := 0; errors_so_far := [] |}
              Sample.world [] Sample.conflict_verdict []
              Sample.local_task (partial_of_task Sample.server_task)
              eq_refl (Forall_nil _) eq_refl eq_refl eq_refl)
    as [w1 [t' [w' [es [_ [_ [E [_ [S [F [Er [M _]]]]]]]]]]]].
  exists t', w'.
  split; [exact E | split; [exact S | split; [exact F|]]].
  rewrite Er. cbn [app].
  destruct es as [|e [|e' es]]; try discriminate.
  cbn in M. injection M as _ _ He. cbn. now rewrite He.
Defined.

(** ** From the queue to the wire *)

(** X17: an item put on the queue by [addToSyncQueue] is sent by the next
    run that finds the server reachable (batch size at least 1): one of
    the requests of that run carries an item with its task, operation and
    payload and retry counter 0. *)
Theorem enqueued_item_is_sent (env0 env : Env) (taskId : string)
    (op : Operation) (data : PartialTask) (w : World) (size : Z) :
  health env = true ->
  BATCH_SIZE env = Num size ->
  1 <= size ->
  exists (r : SyncResult) (w' : World) (request : BatchSyncRequest)
         (item : SyncQueueItem),
    sync env (snd (addToSyncQueue env0 taskId op data w)) = Some (r, w')
    /\ In request (requests w')
    /\ In item (items request)
    /\ q_task_id item = taskId /\ q_operation item = op
    /\ q_data item = data /\ q_retry_count item = 0.
Proof.
  intros Hh Hsz Hpos.
  set (w1 := snd (addToSyncQueue env0 taskId op data w)).
  set (item := {| q_id := fresh_id env0 (draws w); q_task_id := taskId;
                  q_operation := op; q_data := data;
                  q_created_at := clock env0 (ticks w);
                  q_retry_count := 0; q_error_message := None |}).
  assert (Hin : In item (pendingItems (db w1))).
  { unfold pendingItems.
    apply (Permutation_in _ (Permutation_sym (order_by_created_at_perm _))).
    apply filter_In. split; [|reflexivity].
    subst w1. cbn. apply in_or_app. right. now left. }
  unfold sync, checkConnectivity, ret. rewrite Hh. cbn [negb].
  destruct (Z.eqb_spec (Z.of_nat (List.length (pendingItems (db w1)))) 0)
    as [He|Hne].
  - destruct (pendingItems (db w1)); [contradiction | discriminate].
  - rewrite Hsz.
    destruct (make_batches_positive size (pendingItems (db w1)) Hpos
                (List.length (pendingItems (db w1))) 0)
      as [bs [E [C _]]]; try lia.
    rewrite E. cbn [skipn Z.to_nat] in C.
    destruct (sync_batches_run env bs
                {| syncedItems := 0; failedItems := 0;
                   errors_so_far := [] |} w1) as [_ [_ R]].
    destruct (sync_batches env bs _ w1) as [t w2]. cbn [snd] in R.
    rewrite <- C in Hin. apply in_concat in Hin.
    destruct Hin as [b [Hb Hib]].
    assert (Hreq : In b (map items (requests w2))).
    { rewrite R. apply in_or_app. now right. }
    apply in_map_iff in Hreq. destruct Hreq as [request [Eb Hreq]].
    eexists. exists w2, request, item. split; [reflexivity|].
    split; [exact Hreq | split; [now rewrite Eb|]].
    repeat split.
Qed.

Lemma enqueued_item_is_sent_witness :
  exists (r : SyncResult) (w' : World) (request : BatchSyncRequest)
         (item : SyncQueueItem),
    sync Sample.confirming_env
      (snd (addToSyncQueue Sample.confirming_env "A" Delete
              (partial_of_task Sample.local_task) Sample.empty_world))
    = Some (r, w')
    /\ In request (requests w')
    /\ In item (items request)
    /\ q_operation item = Delete.
Proof.
  destruct (enqueued_item_is_sent Sample.confirming_env
              Sample.confirming_env "A" Delete
              (partial_of_task Sample.local_task) Sample.empty_world 50
              eq_refl eq_refl)
    as [r [w' [request [item [E [Hr [Hi [_ [Ho _]]]]]]]]]; [lia|].
  exists r, w', request, item.
  split; [exact E | split; [exact Hr | split; [exact Hi | exact Ho]]].
Defined.

(** ** What holds in every world the services bring about *)

Lemma Forall_update_where {A : Type} (P : A -> Prop) (p : A -> bool)
    (f : A -> A) (l : list A) :
  (forall r, p r = true -> P (f r)) ->
  Forall P l -> Forall P (update_where p f l).
Proof.
  intros Hf H. unfold update_where. apply Forall_forall. intros x Hx.
  apply in_map_iff in Hx. destruct Hx as [r [E Hr]].
  rewrite Forall_forall in H. destruct (p r) eqn:Ep; subst x.
  - now apply Hf.
  - now apply H.
Qed.

Lemma Forall_filter {A : Type} (P : A -> Prop) (p : A -> bool)
    (l : list A) :
  Forall P l -> Forall P (filter p l).
Proof.
  intros H. apply Forall_forall. intros x Hx. apply filter_In in Hx.
  rewrite Forall_forall in H. apply H, Hx.
Qed.

Lemma handleSyncError_consistent (item : SyncQueueItem) (message : string)
    (w : World) :
  0 <= q_retry_count item ->
  consistent w -> consistent (snd (handleSyncError item message w)).
Proof.
  intros H0 [Hq Ht]. split.
  - rewrite handleSyncError_queue. apply Forall_forall. intros x Hx.
    apply in_flat_map in Hx. destruct Hx as [r [Hr Hx]].
    rewrite Forall_forall in Hq.
    destruct (String.eqb (q_id r) (q_id item)).
    + destruct (Z.geb_spec (q_retry_count item + 1) 3) as [Hge|Hlt];
        [contradiction|].
      destruct Hx as [<-|[]]. unfold well_counted. cbn.
      repeat split; try lia. discriminate.
    + destruct Hx as [<-|[]]. now apply Hq.
  - rewrite handleSyncError_tasks. apply Forall_update_where; [|exact Ht].
    intros r _ _. discriminate.
Qed.

Lemma updateSyncStatus_consistent (env : Env) (taskId : string)
    (serverData : option ResolvedData) (w : World) :
  consistent w ->
  consistent (snd (updateSyncStatus env taskId Synced serverData w)).
Proof.
  intros [Hq Ht]. split; cbn.
  - unfold delete_where. now apply Forall_filter.
  - apply Forall_update_where; [|exact Ht]. intros r _ H. discriminate.
Qed.

Lemma fail_batch_consistent (env : Env) (message : string)
    (batch : list SyncQueueItem) :
  Forall (fun i => 0 <= q_retry_count i) batch ->
  forall (t : Tally) (w : World),
    consistent w -> consistent (snd (fail_batch env batch message t w)).
Proof.
  induction 1 as [|item rest H0 Hrest IH]; intros t w H.
  - exact H.
  - cbn [fail_batch]. rewrite bind_run, bind_run. apply IH.
    exact (handleSyncError_consistent item message w H0 H).
Qed.

Lemma apply_verdicts_consistent (env : Env) (batch : list SyncQueueItem)
    (processed : list ProcessedItem) :
  Forall (fun i => 0 <= q_retry_count i) batch ->
  forall (t : Tally) (w : World),
    consistent w ->
    consistent (snd (apply_verdicts env batch processed t w)).
Proof.
  intros Hb. induction processed as [|item rest IH]; intros t w H.
  - exact H.
  - cbn [apply_verdicts].
    assert (Hfail :
      consistent (snd
        (match find (fun b => String.eqb (q_task_id b) (client_id item))
                 batch with
         | None => ret (t, Some undefined_item_message)
         | Some b =>
             handleSyncError b
               (opt_or_default (error item) "Sync failed") ;;
             now <- new_Date env ;;
             apply_verdicts env batch rest
               (count_failed
                  {| e_task_id := client_id item;
                     e_operation := operation_text (q_operation b);
                     e_error := opt_or_default (error item) "Sync failed";
                     e_timestamp := now |} t)
         end w))).
    { destruct (find _ batch) as [b|] eqn:Ef; [|exact H].
      rewrite bind_run, bind_run. apply IH.
      apply (handleSyncError_consistent b _ w); [|exact H].
      rewrite Forall_forall in Hb. apply Hb.
      apply (find_some _ _ Ef). }
    destruct (status item); try exact Hfail.
    rewrite bind_run. apply IH. now apply updateSyncStatus_consistent.
Qed.

Lemma sync_batch_consistent (env : Env) (batch : list SyncQueueItem)
    (t : Tally) (w : World) :
  Forall (fun i => 0 <= q_retry_count i) batch ->
  consistent w -> consistent (snd (sync_batch env batch t w)).
Proof.
  intros Hb H. unfold sync_batch. rewrite bind_run.
  destruct (processBatch_run env batch w) as [D _].
  assert (H1 : consistent (snd (processBatch env batch w))).
  { unfold consistent. rewrite D. exact H. }
  destruct (fst (processBatch env batch w)) as [message|processed].
  - now apply fail_batch_consistent.
  - rewrite bind_run.
    pose proof (apply_verdicts_consistent env batch processed Hb t _ H1)
      as H2.
    destruct (fst (apply_verdicts env batch processed t _))
      as [t' [message|]].
    + now apply fail_batch_consistent.
    + exact H2.
Qed.

Lemma sync_batches_consistent (env : Env)
    (batches : list (list SyncQueueItem)) :
  (forall b, In b batches -> Forall (fun i => 0 <= q_retry_count i) b) ->
  forall (t : Tally) (w : World),
    consistent w -> consistent (snd (sync_batches env batches t w)).
Proof.
  induction batches as [|batch rest IH]; intros Hb t w H.
  - exact H.
  - cbn [sync_batches]. rewrite bind_run.
    apply IH; [intros b Hin; apply Hb; now right|].
    apply sync_batch_consistent; [apply Hb; now left | exact H].
Qed.

Lemma sync_consistent (env : Env) (w : World) (r : SyncResult)
    (w' : World) :
  consistent w -> sync env w = Some (r, w') -> consistent w'.
Proof.
  intros H. unfold sync, checkConnectivity, ret.
  destruct (health env); cbn [negb].
  - destruct (Z.of_nat (List.length (pendingItems (db w))) =? 0).
    + intros E. injection E as _ <-. exact H.
    + destruct (make_batches _ _ _ _) as [batches|] eqn:Eb; [|discriminate].
      assert (Hb : forall b, In b batches ->
                     Forall (fun i => 0 <= q_retry_count i) b).
      { intros b Hb. apply Forall_forall. intros i Hi.
        destruct H as [Hq _]. rewrite Forall_forall in Hq.
        apply (Hq i (pendingItems_incl (db w) i
                       (make_batches_incl _ _ _ _ _ Eb b Hb i Hi))). }
      pose proof (sync_batches_consistent env batches Hb) as Hc.
      destruct (sync_batches env batches _ w) as [t w2] eqn:Es.
      intros E. injection E as _ <-.
      match type of Es with
      | sync_batches env batches ?t0 w = _ => specialize (Hc t0 w H)
      end.
      now rewrite Es in Hc.
  - cbn. intros E. injection E as _ <-. exact H.
Qed.

Lemma consistent_enqueue (w : World) (item : SyncQueueItem) :
  q_retry_count item = 0 -> q_error_message item = None ->
  Forall well_counted (sync_queue (db w)) ->
  Forall well_counted (sync_queue (db w) ++ [item]).
Proof.
  intros H0 Hm Hq. apply Forall_app. split; [exact Hq|].
  constructor; [|constructor]. unfold well_counted. rewrite H0.
  repeat split; try lia. intros _. exact Hm.
Qed.

Lemma reachable_consistent (w : World) : reachable w -> consistent w.
Proof.
  induction 1 as [w Ht Hq | env td w H IH | env id u w H IH
                 | env id w H IH | env id op data w H IH
                 | env w r w' H IH Hs].
  - split; [rewrite Hq | rewrite Ht]; constructor.
  - destruct IH as [Hq Ht]. split; cbn.
    + now apply consistent_enqueue.
    + apply Forall_app. split; [exact Ht|].
      constructor; [|constructor]. intros E. discriminate.
  - unfold updateTask. rewrite bind_run. cbn [getTask fst snd].
    destruct (option_map _ _) as [existing|]; [|exact IH].
    destruct IH as [Hq Ht]. split; cbn.
    + now apply consistent_enqueue.
    + apply Forall_update_where; [|exact Ht]. intros r _ E. discriminate.
  - unfold deleteTask. rewrite bind_run. cbn [getTask fst snd].
    destruct (option_map _ _) as [task|]; [|exact IH].
    destruct IH as [Hq Ht]. split; cbn.
    + now apply consistent_enqueue.
    + apply Forall_update_where; [|exact Ht]. intros r _ E. discriminate.
  - destruct IH as [Hq Ht]. split; cbn.
    + now apply consistent_enqueue.
    + exact Ht.
  - exact (sync_consistent env w r w' IH Hs).
Qed.

(** X18: in every world the two services bring about from an empty
    database, a queue row has retry counter 0, 1 or 2, no error text with
    counter 0 and an error text otherwise, and a task row with sync status
    error has an error message. *)
Theorem reachable_rows_are_consistent (w : World) :
  reachable w ->
  (forall i, In i (sync_queue (db w)) ->
     0 <= q_retry_count i < 3
     /\ (q_retry_count i = 0 <-> q_error_message i = None))
  /\ (forall row, In row (tasks (db w)) ->
        t_sync_status (r_task row) = Error ->
        r_error_message row <> None).
Proof.
  intros H. destruct (reachable_consistent w H) as [Hq Ht].
  rewrite Forall_forall in Hq, Ht. split.
  - intros i Hi. destruct (Hq i Hi) as [B [Z0 Zp]].
    split; [exact B | split; [exact Z0|]].
    intros Hn. destruct (Z.eq_dec (q_retry_count i) 0) as [E|N];
      [exact E|]. exfalso. apply Zp; [lia | exact Hn].
  - intros row Hrow. apply (Ht row Hrow).
Qed.

Lemma reachable_rows_are_consistent_witness :
  Forall (fun i => 0 <= q_retry_count i < 3)
    (sync_queue (db (snd (createTask Sample.conflict_env
       {| td_title := "X"; td_description := None; td_completed := None |}
       Sample.blank_world)))).
Proof.
  apply Forall_forall. intros i Hi.
  apply (proj1 (reachable_rows_are_consistent _
                  (reach_createTask Sample.conflict_env
                     {| td_title := "X"; td_description := None;
                        td_completed := None |} Sample.blank_world
                     (reach_empty Sample.blank_world eq_refl eq_refl)))).
  exact Hi.
Defined.
